(** * n8n SQLite to PostgreSQL migration script: model and verified properties

    Source: [tools/dev-scripts/cmd-migrate-n8n-sqlite-to-postgres.py].

    The script is embedded shallowly.  Pure helpers ([map_column_name], the
    per-field coercions) are Rocq functions.  The methods of [N8NMigrator]
    that talk to the two databases and print are computations in a small
    state-and-exception monad over a [State] record that holds the mutable
    attributes of the migrator object, the pending and committed rows of the
    PostgreSQL connection and the chronological trace of every database call
    and every printed line.

    Python [str] is modelled as [string], holding the UTF-8 encoding of the
    text.  Python [int] is [Z] for stored values and [nat] for the counters,
    which only ever count up from zero.

    The methods are given twice.  [Section Migrator] has them on a
    destination connection that stays usable, where [cursor()] and
    [rollback()] return.  [Fallible] has them with both calls able to
    raise, as they do once the connection is lost; the two agree as long
    as the calls return. *)

From Stdlib Require Import ZArith String Ascii List Lia.
From Stdlib Require Import Floats.SpecFloat.
From stdpp Require Import gmap strings list fin_maps.

Local Open Scope string_scope.

(** ** Module-level tables *)

Definition MIGRATION_ORDER : list string :=
  [ "migrations";
    "settings";
    "role";
    "scope";
    "role_scope";
    "user";
    "auth_identity";
    "auth_provider_sync_history";
    "user_api_keys";
    "project";
    "project_relation";
    "folder";
    "tag_entity";
    "annotation_tag_entity";
    "folder_tag";
    "credentials_entity";
    "shared_credentials";
    "workflow_entity";
    "shared_workflow";
    "workflow_history";
    "workflow_statistics";
    "workflows_tags";
    "workflow_dependency";
    "webhook_entity";
    "execution_entity";
    "execution_data";
    "execution_metadata";
    "execution_annotations";
    "execution_annotation_tags";
    "variables";
    "processed_data";
    "data_table";
    "data_table_column";
    "test_run";
    "test_case_execution";
    "installed_packages";
    "installed_nodes";
    "event_destinations";
    "insights_metadata";
    "insights_raw";
    "insights_by_period";
    "chat_hub_sessions";
    "chat_hub_messages";
    "invalid_auth_token" ].

Definition COLUMN_MAPPINGS_items : list (string * list (string * string)) :=
  [ ("installed_packages",
      [ ("packagename", "packageName");
        ("installedversion", "installedVersion");
        ("authorname", "authorName");
        ("authoremail", "authorEmail") ]);
    ("installed_nodes",
      [ ("latestversion", "latestVersion") ]);
    ("auth_identity",
      [ ("userid", "userId");
        ("providerid", "providerId");
        ("providertype", "providerType");
        ("createdat", "createdAt");
        ("updatedat", "updatedAt") ]);
    ("auth_provider_sync_history",
      [ ("providertype", "providerType") ]);
    ("tag_entity",
      [ ("createdat", "createdAt");
        ("updatedat", "updatedAt") ]);
    ("workflows_tags",
      [ ("workflowid", "workflowId");
        ("tagid", "tagId") ]);
    ("workflow_statistics",
      [ ("workflowid", "workflowId");
        ("latestEvent", "latestEvent");
        ("rootcount", "rootCount") ]);
    ("webhook_entity",
      [ ("workflowid", "workflowId");
        ("webhookpath", "webhookPath");
        ("webhookid", "webhookId");
        ("pathlength", "pathLength") ]);
    ("execution_data",
      [ ("workflowdata", "workflowData") ]);
    ("workflow_history",
      [ ("versionid", "versionId");
        ("workflowid", "workflowId");
        ("createdat", "createdAt");
        ("updatedat", "updatedAt") ]);
    ("credentials_entity",
      [ ("createdat", "createdAt");
        ("updatedat", "updatedAt") ]);
    ("shared_credentials",
      [ ("credentialsid", "credentialsId");
        ("projectid", "projectId") ]);
    ("shared_workflow",
      [ ("workflowid", "workflowId");
        ("projectid", "projectId") ]);
    ("execution_metadata",
      [ ("executionid", "executionId") ]);
    ("invalid_auth_token", []);
    ("execution_annotations",
      [ ("executionid", "executionId") ]);
    ("annotation_tag_entity",
      [ ("createdat", "createdAt");
        ("updatedat", "updatedAt") ]);
    ("execution_annotation_tags",
      [ ("annotationid", "annotationId");
        ("tagid", "tagId") ]);
    ("execution_entity",
      [ ("workflowid", "workflowId");
        ("retryof", "retryOf");
        ("retrysuccessid", "retrySuccessId");
        ("startedat", "startedAt");
        ("stoppedat", "stoppedAt");
        ("waitTill", "waitTill");
        ("workflowdata", "workflowData");
        ("customdata", "customData") ]);
    ("processed_data",
      [ ("workflowid", "workflowId") ]);
    ("folder",
      [ ("parentfolderid", "parentFolderId");
        ("projectid", "projectId");
        ("createdat", "createdAt");
        ("updatedat", "updatedAt") ]);
    ("folder_tag",
      [ ("folderid", "folderId");
        ("tagid", "tagId") ]);
    ("workflow_entity",
      [ ("createdat", "createdAt");
        ("updatedat", "updatedAt");
        ("versionid", "versionId");
        ("triggercount", "triggerCount");
        ("parentfolderid", "parentFolderId");
        ("pindata", "pinData");
        ("staticdata", "staticData") ]);
    ("insights_metadata",
      [ ("metaid", "metaId");
        ("workflowid", "workflowId");
        ("projectid", "projectId");
        ("workflowname", "workflowName");
        ("projectname", "projectName") ]);
    ("test_run",
      [ ("workflowid", "workflowId");
        ("triggercount", "triggerCount");
        ("runcreatedat", "runCreatedAt");
        ("completedat", "completedAt");
        ("errorcode", "errorCode");
        ("errordetails", "errorDetails") ]);
    ("user",
      [ ("firstname", "firstName");
        ("lastname", "lastName");
        ("createdat", "createdAt");
        ("updatedat", "updatedAt");
        ("personalizationanswers", "personalizationAnswers");
        ("roleslug", "roleSlug");
        ("ispending", "isPending");
        ("mfasecret", "mfaSecret");
        ("mfaenabled", "mfaEnabled");
        ("mfarecoverycodes", "mfaRecoveryCodes") ]);
    ("test_case_execution",
      [ ("testrunid", "testRunId");
        ("executionid", "executionId");
        ("errorcode", "errorCode");
        ("errordetails", "errorDetails");
        ("runcreatedat", "runCreatedAt");
        ("completedat", "completedAt") ]);
    ("project_relation",
      [ ("projectid", "projectId");
        ("userid", "userId") ]);
    ("data_table",
      [ ("projectid", "projectId");
        ("createdat", "createdAt");
        ("updatedat", "updatedAt") ]);
    ("data_table_column",
      [ ("datatableid", "dataTableId") ]);
    ("role_scope",
      [ ("roleslug", "roleSlug");
        ("scopeslug", "scopeSlug") ]);
    ("user_api_keys",
      [ ("userid", "userId");
        ("apikey", "apiKey");
        ("createdat", "createdAt");
        ("updatedat", "updatedAt") ]);
    ("insights_raw",
      [ ("metaid", "metaId");
        ("createdat", "createdAt") ]);
    ("insights_by_period",
      [ ("metaid", "metaId");
        ("periodunit", "periodUnit");
        ("periodfrom", "periodFrom");
        ("periodto", "periodTo") ]);
    ("chat_hub_sessions",
      [ ("ownerid", "ownerId");
        ("credentialid", "credentialId");
        ("workflowid", "workflowId");
        ("createdat", "createdAt");
        ("updatedat", "updatedAt") ]);
    ("workflow_dependency",
      [ ("workflowid", "workflowId");
        ("workflowversionid", "workflowVersionId");
        ("dependencytype", "dependencyType");
        ("dependencykey", "dependencyKey");
        ("dependencyinfo", "dependencyInfo") ]);
    ("chat_hub_messages",
      [ ("sessionid", "sessionId");
        ("previousmessageid", "previousMessageId");
        ("revisionofmessageid", "revisionOfMessageId");
        ("retryofmessageid", "retryOfMessageId");
        ("workflowid", "workflowId");
        ("executionid", "executionId");
        ("createdat", "createdAt");
        ("updatedat", "updatedAt") ]) ].

(** [COLUMN_MAPPINGS]: the dict of dicts, built from its literal. *)
Definition COLUMN_MAPPINGS : gmap string (gmap string string) :=
  list_to_map (prod_map id list_to_map <$> COLUMN_MAPPINGS_items).

(** [str.lower].  An ASCII capital becomes its small letter.  Two
    characters outside ASCII have a lowercase form with an ASCII letter in
    it: U+212A KELVIN SIGN becomes [k], and U+0130 becomes [i] followed by
    U+0307.  Every other character outside ASCII is kept as it is: Python
    gives it a lowercase form that is again outside ASCII, so that a name
    with such a character is, lowercased here or by Python, no key of the
    rename tables, all of whose keys are ASCII. *)
Definition lower_ascii (c : ascii) : ascii :=
  let n := nat_of_ascii c in
  if (65 <=? n)%nat && (n <=? 90)%nat then ascii_of_nat (n + 32) else c.

Definition is_byte (n : nat) (c : ascii) : bool := Nat.eqb (nat_of_ascii c) n.

Fixpoint lower (s : string) : string :=
  match s with
  | EmptyString => EmptyString
  | String c1 s1 =>
      match s1 with
      | String c2 s2 =>
          if is_byte 196 c1 && is_byte 176 c2 then       (* C4 B0: U+0130 *)
            String "i" (String (ascii_of_nat 204) (String (ascii_of_nat 135) (lower s2)))
          else
            match s2 with
            | String c3 s3 =>
                if is_byte 226 c1 && is_byte 132 c2 && is_byte 170 c3
                then String "k" (lower s3)              (* E2 84 AA: U+212A *)
                else String (lower_ascii c1) (lower s1)
            | EmptyString => String (lower_ascii c1) (lower s1)
            end
      | EmptyString => String (lower_ascii c1) (lower s1)
      end
  end.

(** [N8NMigrator.map_column_name]. *)
Definition map_column_name (table sqlite_col : string) : string :=
  match COLUMN_MAPPINGS !! table with
  | Some m => default sqlite_col (m !! lower sqlite_col)
  | None => sqlite_col
  end.


(** The two inline column lists of [migrate_table]. *)
Definition boolean_columns : list string :=
  [ "active"; "finished"; "loadOnStartup"; "systemRole"; "disabled";
    "mfaEnabled"; "isManaged"; "isPending"; "isArchived" ].

Definition json_columns : list string :=
  [ "nodes"; "connections"; "settings"; "staticData"; "pinData"; "meta";
    "workflowData" ].

(** ** Values and rows *)

(** What a cell holds: the five Python types [sqlite3] returns, and [bool],
    which the coercion produces. *)
Inductive Value : Type :=
| VNone
| VInt (n : Z)
| VFloat (f : spec_float)
| VStr (s : string)
| VBytes (b : list Byte.byte)
| VBool (b : bool).

(** Python's [bool(value)]. *)
Definition py_bool (value : Value) : bool :=
  match value with
  | VNone => false
  | VInt n => negb (n =? 0)%Z
  | VFloat (S754_zero _) => false
  | VFloat _ => true
  | VStr s => negb (String.eqb s "")
  | VBytes b => negb (bool_decide (b = []))
  | VBool b => b
  end.

Definition is_None (value : Value) : bool :=
  match value with VNone => true | _ => false end.

(** The exception value: the text Python prints for [{e}]. *)
Definition Exn : Type := string.

(** A Python [dict] with [str] keys: pairs in insertion order; assigning to
    a key that is present replaces the value where it stands. *)
Fixpoint dict_set {V : Type} (k : string) (v : V) (d : list (string * V))
  : list (string * V) :=
  match d with
  | [] => [(k, v)]
  | (k', v') :: d' =>
      if String.eqb k' k then (k, v) :: d' else (k', v') :: dict_set k v d'
  end.

Fixpoint dict_get {V : Type} (d : list (string * V)) (k : string) : option V :=
  match d with
  | [] => None
  | (k', v') :: d' => if String.eqb k' k then Some v' else dict_get d' k
  end.

Definition dict_keys {V : Type} (d : list (string * V)) : list string := d.*1.

(** [d[k]], raising [KeyError]. *)
Definition dict_getitem {V : Type} (d : list (string * V)) (k : string) : Exn + V :=
  match dict_get d k with
  | Some v => inr v
  | None => inl ("KeyError: " ++ k)
  end.

(** A [sqlite3.Row]: the column names of the cursor with the cell values. *)
Definition Row : Type := list (string * Value).

Definition row_keys (row : Row) : list string := row.*1.

Fixpoint is_ascii (s : string) : bool :=
  match s with
  | EmptyString => true
  | String c s' => (nat_of_ascii c <? 128)%nat && is_ascii s'
  end.

(** How [sqlite3.Row] compares a key with a column name: equal, or both
    ASCII and equal up to the case of the letters. *)
Definition equal_ignore_case (a b : string) : bool :=
  String.eqb a b
  || (is_ascii a && is_ascii b && String.eqb (lower a) (lower b)).

(** [row[key]] for a [str] key: the first column whose name matches. *)
Fixpoint row_getitem (row : Row) (key : string) : Exn + Value :=
  match row with
  | [] => inl "IndexError: No item with that key"
  | (name, value) :: row' =>
      if equal_ignore_case key name then inr value else row_getitem row' key
  end.

(** What [json.loads] returns. *)
#[local] Unset Elimination Schemes.
Inductive Json : Type :=
| JNull
| JBool (b : bool)
| JInt (n : Z)
| JFloat (f : spec_float)
| JStr (s : string)
| JList (items : list Json)
| JDict (items : list (string * Json)).
#[local] Set Elimination Schemes.

(** ** The migrator object and the world it acts on *)

Record PgConfig : Type := mkPgConfig {
  host : string;
  port : Z;
  database : string;
  user : string;
  password : string;
  schema : string
}.

(** A connection object; the attribute is [None] before [connect]. *)
Inductive Conn : Type := ConnOpen | ConnClosed.

(** A row of a destination table: the table and the named cells. *)
Definition PgRow : Type := string * list (string * Value).

Inductive SqliteSql : Type :=
| SqliteCount (table : string)          (* SELECT COUNT( * ) FROM table *)
| SqliteSelectAll (table : string).     (* SELECT * FROM table *)

Inductive PgSql : Type :=
| PgSelectColumns (schema table : string)
    (* information_schema.columns of schema.table, by ordinal position *)
| PgInsert (schema table : string) (columns : list string) (values : list Value)
    (* INSERT INTO schema.table (columns) VALUES (values) ON CONFLICT DO NOTHING *)
| PgCount (schema table : string).      (* SELECT COUNT( * ) FROM schema.table *)

(** A printed line, with the values its f-string interpolates. *)
Inductive Line : Type :=
| LRule
| LMigratingTable (table : string)
| LTableNotFound (table : string)
| LTableEmpty (table : string)
| LFoundRows (total_rows : nat)
| LInsertError (e : Exn)
| LColumns (columns : list string)
| LValues (preview : list Value)
| LMigrated (inserted skipped : nat)
| LTableError (table : string) (e : Exn)
| LStarting
| LTime
| LSummary
| LSummaryRow (table : string) (inserted skipped : nat)
| LTotal (inserted skipped : nat)
| LVerification
| LWorkflows (n : nat)
| LCredentials (n : nat)
| LExecutions (n : nat)
| LConnectingSqlite (path : string)
| LConnectingPg (host : string) (port : Z) (database : string)
| LCompleted
| LFailed (e : Exn)
| LTraceback (e : Exn).

Inductive Event : Type :=
| Stdout (l : Line)
| Stderr (l : Line)
| SqliteConnect (path : string)
| PgConnect (cfg : PgConfig)
| SqliteExecute (q : SqliteSql)
| SqliteFetchone
| SqliteFetchall (n : nat)
| PgExecute (q : PgSql)
| PgFetchone
| PgFetchall
| PgCommit
| PgRollback
| SqliteCursorClose
| PgCursorClose
| SqliteClose
| PgClose.

(** The attributes of the [N8NMigrator] object, the transaction state of
    the PostgreSQL connection and the trace, oldest event first. *)
Record State : Type := mkState {
  sqlite_path : string;
  pg_config : PgConfig;
  sqlite_conn : option Conn;
  pg_conn : option Conn;
  stats : list (string * (nat * nat));
  pg_pending : list PgRow;
  pg_committed : list PgRow;
  trace : list Event
}.

Definition set_sqlite_conn (c : option Conn) (st : State) : State :=
  mkState (sqlite_path st) (pg_config st) c (pg_conn st) (stats st)
          (pg_pending st) (pg_committed st) (trace st).

Definition set_pg_conn (c : option Conn) (st : State) : State :=
  mkState (sqlite_path st) (pg_config st) (sqlite_conn st) c (stats st)
          (pg_pending st) (pg_committed st) (trace st).

Definition set_stats (s : list (string * (nat * nat))) (st : State) : State :=
  mkState (sqlite_path st) (pg_config st) (sqlite_conn st) (pg_conn st) s
          (pg_pending st) (pg_committed st) (trace st).

Definition set_pg (pending committed : list PgRow) (st : State) : State :=
  mkState (sqlite_path st) (pg_config st) (sqlite_conn st) (pg_conn st)
          (stats st) pending committed (trace st).

Definition emit (e : Event) (st : State) : State :=
  mkState (sqlite_path st) (pg_config st) (sqlite_conn st) (pg_conn st)
          (stats st) (pg_pending st) (pg_committed st) (trace st ++ [e]).

(** [N8NMigrator.__init__], on a destination that holds [committed]. *)
Definition N8NMigrator_init (sqlite_path : string) (pg_config : PgConfig)
    (committed : list PgRow) : State :=
  mkState sqlite_path pg_config None None [] [] committed [].

(** What one [INSERT ... ON CONFLICT DO NOTHING] does. *)
Inductive InsertOutcome : Type :=
| Stored              (* the row joins the open transaction *)
| Conflict            (* a conflicting row exists: nothing is stored *)
| Failed (e : Exn).   (* the statement raises *)

(** The environment: the source database, and how the libraries and the
    destination server answer.  An answer may depend on everything that
    happened before, so it is a function of the state at the call.

    Fault model: [connect], [execute] and [commit] may raise an [Exception];
    [print], [close] and the [fetch] calls after an [execute] that returned
    do not.  In [Section Migrator] the destination connection stays usable:
    a cursor is obtained from an open connection and [rollback] returns.
    [Fallible], further down, has the functions for a connection that can
    be lost, where both calls can raise.  [KeyboardInterrupt] and
    [SystemExit] are outside the model. *)
Record Env : Type := mkEnv {
  json_loads : string -> Exn + Json;
  sqlite3_connect_error : string -> option Exn;
  sqlite_tables : gmap string (list Row);
  psycopg2_connect_error : PgConfig -> option Exn;
  pg_columns_of : State -> string -> string -> Exn + list string;
  pg_insert_outcome : State -> string -> string -> list (string * Value) -> InsertOutcome;
  pg_commit_error : State -> option Exn;
  pg_count_result : State -> string -> string -> Exn + nat
}.

(** ** Computations: state that survives an exception *)

Definition M (A : Type) : Type := State -> (Exn + A) * State.

Definition ret {A : Type} (a : A) : M A := fun st => (inr a, st).

Definition raise {A : Type} (e : Exn) : M A := fun st => (inl e, st).

Definition bind {A B : Type} (m : M A) (f : A -> M B) : M B :=
  fun st =>
    match m st with
    | (inr a, st') => f a st'
    | (inl e, st') => (inl e, st')
    end.

Declare Scope py_scope.
Delimit Scope py_scope with py.
Notation "x <- c1 ;; c2" := (bind c1 (fun x => c2))
  (at level 100, c1 at next level, right associativity) : py_scope.
Notation "c1 ;; c2" := (bind c1 (fun _ => c2))
  (at level 100, right associativity) : py_scope.
Local Open Scope py_scope.

(** [try: body except Exception as e: handler e]. *)
Definition try_except {A : Type} (body : M A) (handler : Exn -> M A) : M A :=
  fun st =>
    match body st with
    | (inl e, st') => handler e st'
    | (inr a, st') => (inr a, st')
    end.

(** [try: body finally: final]. *)
Definition try_finally {A : Type} (body : M A) (final : M unit) : M A :=
  fun st =>
    match body st with
    | (r, st') =>
        match final st' with
        | (inr _, st'') => (r, st'')
        | (inl e, st'') => (inl e, st'')
        end
    end.

(** An expression that may raise, inside a computation. *)
Definition lift {A : Type} (r : Exn + A) : M A := fun st => (r, st).

(** [for x in xs: acc = body acc x]. *)
Fixpoint for_each {A B : Type} (body : B -> A -> M B) (xs : list A) (acc : B) : M B :=
  match xs with
  | [] => ret acc
  | x :: xs' => acc' <- body acc x ;; for_each body xs' acc'
  end.

(** The same loop for an expression that may raise but has no effect. *)
Fixpoint fold_exn {A B : Type} (body : B -> A -> Exn + B) (xs : list A) (acc : B) : Exn + B :=
  match xs with
  | [] => inr acc
  | x :: xs' =>
      match body acc x with
      | inr acc' => fold_exn body xs' acc'
      | inl e => inl e
      end
  end.

(** A list comprehension whose element expression may raise. *)
Fixpoint map_exn {A B : Type} (f : A -> Exn + B) (xs : list A) : Exn + list B :=
  match xs with
  | [] => inr []
  | x :: xs' =>
      match f x with
      | inr y =>
          match map_exn f xs' with
          | inr ys => inr (y :: ys)
          | inl e => inl e
          end
      | inl e => inl e
      end
  end.

Definition print (l : Line) : M unit := fun st => (inr tt, emit (Stdout l) st).

Section Migrator.

Context (env : Env).

(** *** Row transformation (the inner [for key in row.keys()] loop) *)

(** [try: json.loads(value) except: pass]. *)
Definition try_json_loads (value : string) : unit :=
  match json_loads env value with
  | inr _ => tt
  | inl _ => tt
  end.

(** The two coercion steps applied to one cell before it is stored in
    [data]. *)
Definition convert_value (pg_col : string) (value : Value) : Value :=
  let value :=
    if bool_decide (pg_col ∈ boolean_columns) && negb (is_None value)
    then VBool (py_bool value) else value in
  match value with
  | VStr s =>
      if bool_decide (pg_col ∈ json_columns)
      then match try_json_loads s with tt => value end
      else value
  | _ => value
  end.

(** The body of the inner loop for one [key]. *)
Definition transform_field (table_name : string) (pg_columns : list string)
    (row : Row) (data : list (string * Value)) (key : string)
  : Exn + list (string * Value) :=
  let pg_col := map_column_name table_name key in
  if bool_decide (pg_col ∈ pg_columns) then
    match row_getitem row key with
    | inr value => inr (dict_set pg_col (convert_value pg_col value) data)
    | inl e => inl e
    end
  else inr data.

Definition transform_row (table_name : string) (pg_columns : list string)
    (row : Row) : Exn + list (string * Value) :=
  fold_exn (transform_field table_name pg_columns row) (row_keys row) [].

(** *** Database calls *)

(** [conn.cursor()] on a usable connection; [Fallible.pg_cursor] is the
    call that can raise on a connection that was lost. *)
Definition cursor (conn : option Conn) : M unit :=
  match conn with
  | Some ConnOpen => ret tt
  | Some ConnClosed => raise "ProgrammingError: Cannot operate on a closed database."
  | None => raise "AttributeError: 'NoneType' object has no attribute 'cursor'"
  end.

Definition sqlite_cursor : M unit := fun st => cursor (sqlite_conn st) st.
Definition pg_cursor : M unit := fun st => cursor (pg_conn st) st.

Definition sqlite_query (q : SqliteSql) (table : string) : M (list Row) :=
  fun st =>
    let st := emit (SqliteExecute q) st in
    match sqlite_tables env !! table with
    | Some rows => (inr rows, st)
    | None => (inl ("OperationalError: no such table: " ++ table), st)
    end.

(** [execute("SELECT COUNT( * ) ...")] then [fetchone()[0]]. *)
Definition sqlite_count (table : string) : M nat :=
  rows <- sqlite_query (SqliteCount table) table ;;
  fun st => (inr (length rows), emit SqliteFetchone st).

(** [execute("SELECT * ...")] then [fetchall()]. *)
Definition sqlite_select_all (table : string) : M (list Row) :=
  rows <- sqlite_query (SqliteSelectAll table) table ;;
  fun st => (inr rows, emit (SqliteFetchall (length rows)) st).

(** [N8NMigrator.get_table_columns]. *)
Definition get_table_columns (table_name : string) : M (list string) :=
  fun st =>
    let sch := schema (pg_config st) in
    let st' := emit (PgExecute (PgSelectColumns sch table_name)) st in
    match pg_columns_of env st sch table_name with
    | inr columns => (inr columns, emit PgFetchall st')
    | inl e => (inl e, st')
    end.

Definition pg_execute_insert (table_name : string) (columns : list string)
    (values : list Value) : M unit :=
  fun st =>
    let sch := schema (pg_config st) in
    let cells := zip columns values in
    let st' := emit (PgExecute (PgInsert sch table_name columns values)) st in
    match pg_insert_outcome env st sch table_name cells with
    | Stored =>
        (inr tt, set_pg (pg_pending st' ++ [(table_name, cells)]) (pg_committed st') st')
    | Conflict => (inr tt, st')
    | Failed e => (inl e, st')
    end.

(** [self.pg_conn.rollback()] on a usable connection: the open transaction
    is discarded.  [Fallible.pg_rollback] is the call that can raise. *)
Definition pg_rollback : M unit :=
  fun st => (inr tt, set_pg [] (pg_committed st) (emit PgRollback st)).

(** [self.pg_conn.commit()]: the open transaction becomes durable. *)
Definition pg_commit : M unit :=
  fun st =>
    let st' := emit PgCommit st in
    match pg_commit_error env st with
    | None => (inr tt, set_pg [] (pg_committed st' ++ pg_pending st') st')
    | Some e => (inl e, st')
    end.

Definition pg_select_count (table : string) : M nat :=
  fun st =>
    let sch := schema (pg_config st) in
    let st' := emit (PgExecute (PgCount sch table)) st in
    match pg_count_result env st sch table with
    | inr n => (inr n, emit PgFetchone st')
    | inl e => (inl e, st')
    end.

(** *** [N8NMigrator.migrate_table] *)

(** The body of [for row in rows], from the counters before the row to
    the counters after it. *)
Definition migrate_row (table_name : string) (pg_columns : list string)
    (counters : nat * nat) (row : Row) : M (nat * nat) :=
  let '(inserted, skipped) := counters in
  data <- lift (transform_row table_name pg_columns row) ;;
  if bool_decide (data = []) then
    ret (inserted, S skipped)                                  (* continue *)
  else
    let columns := dict_keys data in
    values <- lift (map_exn (dict_getitem data) columns) ;;
    try_except
      (pg_execute_insert table_name columns values ;;
       ret (S inserted, skipped))
      (fun e =>
         print (LInsertError e) ;;
         print (LColumns columns) ;;
         print (LValues (take 3 values)) ;;
         pg_rollback ;;
         ret (inserted, S skipped)).                           (* continue *)

(** The statements under the outer [try:]. *)
Definition migrate_table_try (table_name : string) : M (nat * nat) :=
  pg_columns <- get_table_columns table_name ;;
  if bool_decide (pg_columns = []) then
    print (LTableNotFound table_name) ;;
    ret (0, 0)
  else
    total_rows <- sqlite_count table_name ;;
    if bool_decide (total_rows = 0) then
      print (LTableEmpty table_name) ;;
      ret (0, 0)
    else
      print (LFoundRows total_rows) ;;
      rows <- sqlite_select_all table_name ;;
      counters <- for_each (migrate_row table_name pg_columns) rows (0, 0) ;;
      pg_commit ;;
      print (LMigrated counters.1 counters.2) ;;
      ret counters.

Definition migrate_table (table_name : string) : M (nat * nat) :=
  print LRule ;;
  print (LMigratingTable table_name) ;;
  print LRule ;;
  sqlite_cursor ;;
  pg_cursor ;;
  try_finally
    (try_except
       (migrate_table_try table_name)
       (fun e =>
          print (LTableError table_name e) ;;
          pg_rollback ;;
          ret (0, 0)))
    (fun st => (inr tt, emit PgCursorClose (emit SqliteCursorClose st))).

(** *** [N8NMigrator.migrate_all] *)

(** The body of [for table in MIGRATION_ORDER], on the running totals. *)
Definition migrate_all_step (totals : nat * nat) (table : string) : M (nat * nat) :=
  counters <- migrate_table table ;;
  fun st =>
    (inr (totals.1 + counters.1, totals.2 + counters.2),
     set_stats (dict_set table counters (stats st)) st).

Fixpoint print_summary (items : list (string * (nat * nat))) : M unit :=
  match items with
  | [] => ret tt
  | (table, (inserted, skipped)) :: items' =>
      (if (0 <? inserted)%nat || (0 <? skipped)%nat
       then print (LSummaryRow table inserted skipped) else ret tt) ;;
      print_summary items'
  end.

Definition migrate_all : M unit :=
  print LRule ;; print LStarting ;; print LRule ;; print LTime ;;
  totals <- for_each migrate_all_step MIGRATION_ORDER (0, 0) ;;
  print LRule ;; print LSummary ;; print LRule ;;
  (fun st => print_summary (stats st) st) ;;
  print (LTotal totals.1 totals.2) ;;
  print LRule.

(** *** [connect], [verify_migration], [close] *)

Definition connect : M unit :=
  fun st =>
    let st := emit (Stdout (LConnectingSqlite (sqlite_path st))) st in
    let st := emit (SqliteConnect (sqlite_path st)) st in
    match sqlite3_connect_error env (sqlite_path st) with
    | Some e => (inl e, st)
    | None =>
        let st := set_sqlite_conn (Some ConnOpen) st in
        let cfg := pg_config st in
        let st := emit (Stdout (LConnectingPg (host cfg) (port cfg) (database cfg))) st in
        let st := emit (PgConnect cfg) st in
        match psycopg2_connect_error env cfg with
        | Some e => (inl e, st)
        | None => (inr tt, set_pg_conn (Some ConnOpen) st)
        end
    end.

Definition verify_migration : M unit :=
  print LRule ;; print LVerification ;; print LRule ;;
  pg_cursor ;;
  workflow_count <- pg_select_count "workflow_entity" ;;
  print (LWorkflows workflow_count) ;;
  cred_count <- pg_select_count "credentials_entity" ;;
  print (LCredentials cred_count) ;;
  exec_count <- pg_select_count "execution_entity" ;;
  print (LExecutions exec_count) ;;
  fun st => (inr tt, emit PgCursorClose st).

(** [if self.sqlite_conn:] is true of any connection object. *)
Definition close : M unit :=
  fun st =>
    let st :=
      match sqlite_conn st with
      | Some _ => set_sqlite_conn (Some ConnClosed) (emit SqliteClose st)
      | None => st
      end in
    let st :=
      match pg_conn st with
      | Some _ => set_pg_conn (Some ConnClosed) (emit PgClose st)
      | None => st
      end in
    (inr tt, st).

(** *** [main], after the arguments are parsed; the result is the value
    handed to [sys.exit]. *)
Definition main_try : M Z :=
  connect ;;
  migrate_all ;;
  verify_migration ;;
  print LCompleted ;;
  ret 0%Z.

Definition main (sqlite : string) (pg_config : PgConfig)
    (committed : list PgRow) : (Exn + Z) * State :=
  try_finally
    (try_except main_try
       (fun e =>
          print (LFailed e) ;;
          (fun st => (inr tt, emit (Stderr (LTraceback e)) st)) ;;
          ret 1%Z))
    close
    (N8NMigrator_init sqlite pg_config committed).

End Migrator.

(** ** The specification's reading of a false-like cell *)

(** The stored values, other than null, that Python counts as false: the
    integer 0, a floating-point zero of either sign, the empty text and
    the empty blob (and [False]). *)
Inductive falsy : Value -> Prop :=
| falsy_int : falsy (VInt 0)
| falsy_float sign : falsy (VFloat (S754_zero sign))
| falsy_str : falsy (VStr "")
| falsy_bytes : falsy (VBytes [])
| falsy_bool : falsy (VBool false).


(** ** Reading a trace *)

(** The table a banner line announces: each call of [migrate_table] prints
    one, first thing. *)
Definition attempted_table (e : Event) : option string :=
  match e with
  | Stdout (LMigratingTable table) => Some table
  | _ => None
  end.

Definition attempted (tr : list Event) : list string := omap attempted_table tr.

(** How many source rows the [fetchall] calls of a trace returned. *)
Definition fetched_count (e : Event) : nat :=
  match e with
  | SqliteFetchall n => n
  | _ => 0
  end.

Definition fetched_rows (tr : list Event) : nat := sum_list_with fetched_count tr.

Definition is_sqlite_execute (e : Event) : bool :=
  match e with SqliteExecute _ => true | _ => false end.

Definition is_sqlite_fetchall (e : Event) : bool :=
  match e with
  | SqliteExecute (SqliteSelectAll _) | SqliteFetchall _ => true
  | _ => false
  end.

Definition is_pg_insert (e : Event) : bool :=
  match e with PgExecute (PgInsert _ _ _ _) => true | _ => false end.

Definition not_banner (e : Event) : bool :=
  match attempted_table e with Some _ => false | None => true end.


(** The events the body of the row loop can add. *)
Definition row_event (e : Event) : bool :=
  match e with
  | PgExecute (PgInsert _ _ _ _) | PgRollback
  | Stdout (LInsertError _) | Stdout (LColumns _) | Stdout (LValues _) => true
  | _ => false
  end.

(** [st'] is [st] after some calls that left the attributes of the
    migrator object alone and added events of the kind [P] only. *)
Definition extends (P : Event -> bool) (st st' : State) : Prop :=
  sqlite_path st' = sqlite_path st
  /\ pg_config st' = pg_config st
  /\ sqlite_conn st' = sqlite_conn st
  /\ pg_conn st' = pg_conn st
  /\ stats st' = stats st
  /\ exists new, trace st' = (trace st ++ new)%list /\ forallb P new = true.

(** Both connections are open: the state [connect] leaves. *)
Definition connected (st : State) : Prop :=
  sqlite_conn st = Some ConnOpen /\ pg_conn st = Some ConnOpen.

(** The state after the three banner lines of [migrate_table]. *)
Definition after_banner (table_name : string) (st : State) : State :=
  emit (Stdout LRule) (emit (Stdout (LMigratingTable table_name)) (emit (Stdout LRule) st)).

(** The state after the [finally:] clause of [migrate_table]. *)
Definition close_cursors (st : State) : State :=
  emit PgCursorClose (emit SqliteCursorClose st).

(** The state after the [except Exception as e:] clause of [migrate_table]. *)
Definition after_table_error (table_name : string) (e : Exn) (st : State) : State :=
  set_pg [] (pg_committed st) (emit PgRollback (emit (Stdout (LTableError table_name e)) st)).

(** [st'] has the connections and the configuration of [st]. *)
Definition same_connections (st st' : State) : Prop :=
  sqlite_path st' = sqlite_path st
  /\ pg_config st' = pg_config st
  /\ sqlite_conn st' = sqlite_conn st
  /\ pg_conn st' = pg_conn st.

(** The three tables [verify_migration] counts. *)
Definition verified_tables : list string :=
  [ "workflow_entity"; "credentials_entity"; "execution_entity" ].

(** ** Example data *)

Definition example_cfg : PgConfig :=
  mkPgConfig "postgres" 5432 "chatsuite" "admin" "secret" "n8n".

(** An environment over a given source and destination catalog: both
    servers accept the connection, the commit and the counting queries
    succeed, [insert] decides each INSERT from its cells, and [json.loads]
    accepts the text [null] only. *)
Definition make_env (source : list (string * list Row))
    (catalog : list (string * list string))
    (insert : list (string * Value) -> InsertOutcome) : Env :=
  mkEnv
    (fun text => if String.eqb text "null" then inr JNull
                 else inl "JSONDecodeError: Expecting value")
    (fun _ => None)
    (list_to_map source)
    (fun _ => None)
    (fun _ _ table => inr (default [] ((list_to_map catalog : gmap string (list string)) !! table)))
    (fun _ _ _ cells => insert cells)
    (fun _ => None)
    (fun _ _ _ => inr 0).

Definition workflow_row : Row :=
  [ ("id", VInt 7); ("name", VStr "nightly"); ("active", VInt 0);
    ("nodes", VStr "[{]") ].

Definition example_env : Env :=
  make_env [("workflow_entity", [workflow_row])]
           [("workflow_entity", ["id"; "name"; "active"; "nodes"])]
           (fun _ => Stored).

(** A migrator whose [connect] has returned, on an empty destination. *)
Definition connected_state : State :=
  mkState "database.sqlite" example_cfg (Some ConnOpen) (Some ConnOpen) [] [] [] [].

Definition package_row : Row := [ ("packagename", VStr "foo") ].

(** A source table of two rows whose second row the destination rejects:
    its [name] is null. *)
Definition tag_row_1 : Row :=
  [ ("id", VInt 1); ("name", VStr "urgent");
    ("createdat", VStr "2024-01-01"); ("updatedat", VStr "2024-01-02") ].

Definition tag_row_2 : Row :=
  [ ("id", VInt 2); ("name", VNone);
    ("createdat", VStr "2024-01-03"); ("updatedat", VStr "2024-01-04") ].

Definition tag_columns : list string := [ "id"; "name"; "createdAt"; "updatedAt" ].

Definition reject_null_name (cells : list (string * Value)) : InsertOutcome :=
  match dict_get cells "name" with
  | Some VNone => Failed "NotNullViolation: null value in column name"
  | _ => Stored
  end.

Definition tag_env : Env :=
  make_env [("tag_entity", [tag_row_1; tag_row_2])]
           [("tag_entity", tag_columns)]
           reject_null_name.

Definition tag_env_first_row : Env :=
  make_env [("tag_entity", [tag_row_1])]
           [("tag_entity", tag_columns)]
           reject_null_name.

Definition tag_env_empty : Env :=
  make_env [("tag_entity", [])] [("tag_entity", tag_columns)] reject_null_name.

(** What migrating that table adds to the trace. *)
Definition tag_trace : list Event :=
  [ Stdout LRule; Stdout (LMigratingTable "tag_entity"); Stdout LRule;
    PgExecute (PgSelectColumns "n8n" "tag_entity"); PgFetchall;
    SqliteExecute (SqliteCount "tag_entity"); SqliteFetchone;
    Stdout (LFoundRows 2);
    SqliteExecute (SqliteSelectAll "tag_entity"); SqliteFetchall 2;
    PgExecute (PgInsert "n8n" "tag_entity" tag_columns
                 [VInt 1; VStr "urgent"; VStr "2024-01-01"; VStr "2024-01-02"]);
    PgExecute (PgInsert "n8n" "tag_entity" tag_columns
                 [VInt 2; VNone; VStr "2024-01-03"; VStr "2024-01-04"]);
    Stdout (LInsertError "NotNullViolation: null value in column name");
    Stdout (LColumns tag_columns);
    Stdout (LValues [VInt 2; VNone; VStr "2024-01-03"]);
    PgRollback; PgCommit; Stdout (LMigrated 1 1);
    SqliteCursorClose; PgCursorClose ].

(** The source opens, the destination server refuses the connection. *)
Definition no_server_env : Env :=
  mkEnv (json_loads tag_env) (fun _ => None) (sqlite_tables tag_env)
    (fun _ => Some "OperationalError: could not connect to server")
    (pg_columns_of tag_env) (pg_insert_outcome tag_env)
    (pg_commit_error tag_env) (pg_count_result tag_env).

(** ** Reading the first bytes of a name *)

(** [s] begins with the UTF-8 bytes C4 B0 of U+0130. *)
Definition starts_capital_i_dot (s : string) : bool :=
  match s with
  | String c1 (String c2 _) => is_byte 196 c1 && is_byte 176 c2
  | _ => false
  end.

(** [s] begins with the UTF-8 bytes E2 84 AA of U+212A KELVIN SIGN. *)
Definition starts_kelvin (s : string) : bool :=
  match s with
  | String c1 (String c2 (String c3 _)) =>
      is_byte 226 c1 && is_byte 132 c2 && is_byte 170 c3
  | _ => false
  end.

Definition starts_byte (n : nat) (s : string) : bool :=
  match s with String c _ => is_byte n c | EmptyString => false end.

Definition starts_bytes2 (n m : nat) (s : string) : bool :=
  match s with String c s' => is_byte n c && starts_byte m s' | EmptyString => false end.

(** U+212A KELVIN SIGN, encoded. *)
Definition kelvin_sign : string :=
  String (ascii_of_nat 226) (String (ascii_of_nat 132) (String (ascii_of_nat 170) "")).

(** ** Reading more of a trace, and what a row should become *)

(** The INSERT statements of a trace, in order: schema, table, columns
    and values. *)
Definition insert_of (e : Event) : option (string * string * list string * list Value) :=
  match e with
  | PgExecute (PgInsert sch table columns values) => Some (sch, table, columns, values)
  | _ => None
  end.

Definition inserts (tr : list Event) : list (string * string * list string * list Value) :=
  omap insert_of tr.

(** The cell a source cell becomes, if its column exists in the
    destination. *)
Definition expected_cell (env : Env) (table_name : string) (pg_columns : list string)
    (cell : string * Value) : option (string * Value) :=
  let pg_col := map_column_name table_name cell.1 in
  if bool_decide (pg_col ∈ pg_columns)
  then Some (pg_col, convert_value env pg_col cell.2)
  else None.

Definition expected_data (env : Env) (table_name : string) (pg_columns : list string)
    (row : Row) : list (string * Value) :=
  omap (expected_cell env table_name pg_columns) row.

(** The mapping of a row ([[]] should the transformation raise). *)
Definition row_data (env : Env) (table_name : string) (pg_columns : list string)
    (row : Row) : list (string * Value) :=
  match transform_row env table_name pg_columns row with
  | inr data => data
  | inl _ => []
  end.

(** The mappings of the rows that are sent to the destination: the
    non-empty ones, in the order of the rows. *)
Definition sent_data (env : Env) (table_name : string) (pg_columns : list string)
    (rows : list Row) : list (list (string * Value)) :=
  filter (fun data => data <> []) (row_data env table_name pg_columns <$> rows).

(** The INSERT that sends a mapping. *)
Definition insert_for (sch table_name : string) (data : list (string * Value))
  : string * string * list string * list Value :=
  (sch, table_name, dict_keys data, data.*2).

(** The state in which the row loop of [migrate_table] starts: after the
    catalog query, the count and the [SELECT *] that returned [n] rows. *)
Definition before_rows (table_name : string) (n : nat) (st : State) : State :=
  emit (SqliteFetchall n)
    (emit (SqliteExecute (SqliteSelectAll table_name))
       (emit (Stdout (LFoundRows n))
          (emit SqliteFetchone
             (emit (SqliteExecute (SqliteCount table_name))
                (emit PgFetchall
                   (emit (PgExecute (PgSelectColumns (schema (pg_config st)) table_name))
                      st)))))).

(** The state after a [commit] that returned. *)
Definition after_commit (st : State) : State :=
  set_pg [] (pg_committed st ++ pg_pending st) (emit PgCommit st).

(** The state after the catalog query of [get_table_columns] returned. *)
Definition after_columns (table_name : string) (st : State) : State :=
  emit PgFetchall (emit (PgExecute (PgSelectColumns (schema (pg_config st)) table_name)) st).

(** ** More example data *)

(** The destination holds the rows already: every INSERT meets a conflict. *)
Definition rerun_env : Env :=
  make_env [("tag_entity", [tag_row_1; tag_row_2])]
           [("tag_entity", tag_columns)]
           (fun _ => Conflict).

(** The destination has a table the source lacks. *)
Definition no_source_env : Env :=
  make_env [] [("tag_entity", tag_columns)] (fun _ => Stored).

(** The lines of the summary: one per table with a non-zero counter, in
    the order of the entries. *)
Definition summary_lines (items : list (string * (nat * nat))) : list Event :=
  (fun item => Stdout (LSummaryRow item.1 item.2.1 item.2.2))
    <$> filter (fun item => 0 < item.2.1 \/ 0 < item.2.2) items.

(** The sums of the two counters over the entries of [stats]. *)
Definition total_inserted (items : list (string * (nat * nat))) : nat :=
  sum_list_with (fun item => item.2.1) items.

Definition total_skipped (items : list (string * (nat * nat))) : nat :=
  sum_list_with (fun item => item.2.2) items.

(** The state [connect] leaves on a fresh migrator when both connections
    are established. *)
Definition after_connect (sqlite : string) (cfg : PgConfig) (committed : list PgRow)
  : State :=
  mkState sqlite cfg (Some ConnOpen) (Some ConnOpen) [] [] committed
    [ Stdout (LConnectingSqlite sqlite); SqliteConnect sqlite;
      Stdout (LConnectingPg (host cfg) (port cfg) (database cfg)); PgConnect cfg ].

(** The source file cannot be opened. *)
Definition no_source_file_env : Env :=
  mkEnv (json_loads tag_env) (fun _ => Some "OperationalError: unable to open database file")
    (sqlite_tables tag_env) (fun _ => None)
    (pg_columns_of tag_env) (pg_insert_outcome tag_env)
    (pg_commit_error tag_env) (pg_count_result tag_env).


(** ** The transaction when the answer to an INSERT depends on its cells only *)

Definition is_failed (o : InsertOutcome) : bool :=
  match o with Failed _ => true | _ => false end.

(** The open transaction after the mappings [sent] were sent in turn: a
    stored row is added, a conflict changes nothing, and a failure, by the
    rollback that follows it, empties the transaction. *)
Definition survivors (answer : list (string * Value) -> InsertOutcome)
    (table_name : string) (pending : list PgRow)
    (sent : list (list (string * Value))) : list PgRow :=
  foldl (fun acc data =>
           match answer data with
           | Stored => (acc ++ [(table_name, data)])%list
           | Conflict => acc
           | Failed _ => []
           end) pending sent.

(** How many of the INSERTs returned. *)
Definition returned (answer : list (string * Value) -> InsertOutcome)
    (sent : list (list (string * Value))) : nat :=
  length (filter (fun data => is_failed (answer data) = false) sent).

(** The catalog query of the destination raises. *)
Definition catalog_fails_env : Env :=
  mkEnv (json_loads tag_env) (fun _ => None) (sqlite_tables tag_env) (fun _ => None)
    (fun _ _ _ => inl "InsufficientPrivilege: permission denied for schema")
    (pg_insert_outcome tag_env) (pg_commit_error tag_env) (pg_count_result tag_env).

(** ** A destination connection that can be lost

    [self.pg_conn.cursor()] and [self.pg_conn.rollback()] raise as well:
    once the server has gone away, or the connection was dropped, both
    raise [InterfaceError: connection already closed].  Neither call is
    under a [try:] of its own in [migrate_table]: the cursor is obtained
    before the outer [try:], and the two rollbacks are the last statements
    of the two [except] clauses.

    The computations of [Section Migrator] take both calls to return.  The
    module [Fallible] has the same functions with both calls answered by
    the environment, so that they can raise; the other calls are those of
    [Section Migrator]. *)
Record Faults : Type := mkFaults {
  pg_cursor_error : State -> option Exn;      (* what [pg_conn.cursor()] raises *)
  pg_rollback_error : State -> option Exn     (* what [pg_conn.rollback()] raises *)
}.

(** A connection that stays usable. *)
Definition no_faults : Faults := mkFaults (fun _ => None) (fun _ => None).

Module Fallible.

Section Migrator.

Context (env : Env) (faults : Faults).

(** [self.pg_conn.cursor()]. *)
Definition pg_cursor : M unit :=
  fun st =>
    match pg_cursor_error faults st with
    | Some e => (inl e, st)
    | None => cursor (pg_conn st) st
    end.

(** [self.pg_conn.rollback()]: the open transaction is discarded, unless
    the call raises. *)
Definition pg_rollback : M unit :=
  fun st =>
    match pg_rollback_error faults st with
    | Some e => (inl e, emit PgRollback st)
    | None => (inr tt, set_pg [] (pg_committed st) (emit PgRollback st))
    end.

(** The body of [for row in rows]. *)
Definition migrate_row (table_name : string) (pg_columns : list string)
    (counters : nat * nat) (row : Row) : M (nat * nat) :=
  let '(inserted, skipped) := counters in
  data <- lift (transform_row env table_name pg_columns row) ;;
  if bool_decide (data = []) then
    ret (inserted, S skipped)                                  (* continue *)
  else
    let columns := dict_keys data in
    values <- lift (map_exn (dict_getitem data) columns) ;;
    try_except
      (pg_execute_insert env table_name columns values ;;
       ret (S inserted, skipped))
      (fun e =>
         print (LInsertError e) ;;
         print (LColumns columns) ;;
         print (LValues (take 3 values)) ;;
         pg_rollback ;;
         ret (inserted, S skipped)).                           (* continue *)

(** The statements under the outer [try:]. *)
Definition migrate_table_try (table_name : string) : M (nat * nat) :=
  pg_columns <- get_table_columns env table_name ;;
  if bool_decide (pg_columns = []) then
    print (LTableNotFound table_name) ;;
    ret (0, 0)
  else
    total_rows <- sqlite_count env table_name ;;
    if bool_decide (total_rows = 0) then
      print (LTableEmpty table_name) ;;
      ret (0, 0)
    else
      print (LFoundRows total_rows) ;;
      rows <- sqlite_select_all env table_name ;;
      counters <- for_each (migrate_row table_name pg_columns) rows (0, 0) ;;
      pg_commit env ;;
      print (LMigrated counters.1 counters.2) ;;
      ret counters.

(** [N8NMigrator.migrate_table]. *)
Definition migrate_table (table_name : string) : M (nat * nat) :=
  print LRule ;;
  print (LMigratingTable table_name) ;;
  print LRule ;;
  sqlite_cursor ;;
  pg_cursor ;;
  try_finally
    (try_except
       (migrate_table_try table_name)
       (fun e =>
          print (LTableError table_name e) ;;
          pg_rollback ;;
          ret (0, 0)))
    (fun st => (inr tt, emit PgCursorClose (emit SqliteCursorClose st))).

(** The body of [for table in MIGRATION_ORDER], on the running totals. *)
Definition migrate_all_step (totals : nat * nat) (table : string) : M (nat * nat) :=
  counters <- migrate_table table ;;
  fun st =>
    (inr (totals.1 + counters.1, totals.2 + counters.2),
     set_stats (dict_set table counters (stats st)) st).

(** [N8NMigrator.migrate_all]. *)
Definition migrate_all : M unit :=
  print LRule ;; print LStarting ;; print LRule ;; print LTime ;;
  totals <- for_each migrate_all_step MIGRATION_ORDER (0, 0) ;;
  print LRule ;; print LSummary ;; print LRule ;;
  (fun st => print_summary (stats st) st) ;;
  print (LTotal totals.1 totals.2) ;;
  print LRule.

(** [N8NMigrator.verify_migration]. *)
Definition verify_migration : M unit :=
  print LRule ;; print LVerification ;; print LRule ;;
  pg_cursor ;;
  workflow_count <- pg_select_count env "workflow_entity" ;;
  print (LWorkflows workflow_count) ;;
  cred_count <- pg_select_count env "credentials_entity" ;;
  print (LCredentials cred_count) ;;
  exec_count <- pg_select_count env "execution_entity" ;;
  print (LExecutions exec_count) ;;
  fun st => (inr tt, emit PgCursorClose st).

Definition main_try : M Z :=
  connect env ;;
  migrate_all ;;
  verify_migration ;;
  print LCompleted ;;
  ret 0%Z.

(** [main], after the arguments are parsed. *)
Definition main (sqlite : string) (pg_config : PgConfig)
    (committed : list PgRow) : (Exn + Z) * State :=
  try_finally
    (try_except main_try
       (fun e =>
          print (LFailed e) ;;
          (fun st => (inr tt, emit (Stderr (LTraceback e)) st)) ;;
          ret 1%Z))
    (close)
    (N8NMigrator_init sqlite pg_config committed).

End Migrator.

End Fallible.

(** The state after the [except Exception as e:] clause of [migrate_table]
    printed its line, where the rollback is called. *)
Definition table_error_reported (table_name : string) (e : Exn) (st : State) : State :=
  emit (Stdout (LTableError table_name e)) st.

(** The state after a rollback that raised. *)
Definition after_failed_rollback (st : State) : State := emit PgRollback st.

(** U+0130 LATIN CAPITAL LETTER I WITH DOT ABOVE, encoded. *)
Definition capital_i_dot : string :=
  String (ascii_of_nat 196) (String (ascii_of_nat 176) "").

(** ** Example data: a lost connection *)

Definition connection_lost : Exn :=
  "OperationalError: server closed the connection unexpectedly".

Definition already_closed : Exn := "InterfaceError: connection already closed".

(** The server goes away before the first catalog query: the query raises,
    and so do the commits and the counting queries. *)
Definition lost_env : Env :=
  mkEnv (json_loads tag_env) (fun _ => None) (sqlite_tables tag_env) (fun _ => None)
    (fun _ _ _ => inl connection_lost)
    (fun _ _ _ _ => Failed connection_lost)
    (fun _ => Some connection_lost)
    (fun _ _ _ => inl connection_lost).

(** The statements of a trace that were sent to the destination. *)
Definition is_pg_execute (e : Event) : bool :=
  match e with PgExecute _ => true | _ => false end.

(** Once a statement has been sent on the lost connection, the connection
    object knows that it is closed: [cursor()] and [rollback()] raise. *)
Definition lost_faults : Faults :=
  mkFaults
    (fun st => if existsb is_pg_execute (trace st) then Some already_closed else None)
    (fun st => if existsb is_pg_execute (trace st) then Some already_closed else None).

(** A connected migrator after one statement was sent on the lost
    connection and the table was given up. *)
Definition after_lost_statement : State :=
  mkState "database.sqlite" example_cfg (Some ConnOpen) (Some ConnOpen) [] [] []
    [ Stdout LRule; Stdout (LMigratingTable "migrations"); Stdout LRule;
      PgExecute (PgSelectColumns "n8n" "migrations");
      Stdout (LTableError "migrations" connection_lost) ].

(** The destination stores the rows; the commit fails on a constraint that
    is checked at the end of the transaction. *)
Definition commit_rejected_env : Env :=
  mkEnv (json_loads tag_env_first_row) (fun _ => None)
    (sqlite_tables tag_env_first_row) (fun _ => None)
    (pg_columns_of tag_env_first_row) (pg_insert_outcome tag_env_first_row)
    (fun _ => Some "ForeignKeyViolation: insert or update violates foreign key constraint")
    (pg_count_result tag_env_first_row).

(** * Properties *)

(** ** Column-name mapping *)

(** No key is written twice in the literal of [COLUMN_MAPPINGS], so the
    order in which a dict literal resolves duplicates plays no role. *)
Lemma COLUMN_MAPPINGS_tables_NoDup : NoDup (COLUMN_MAPPINGS_items.*1).
Proof. apply (bool_decide_unpack _). vm_compute. exact I. Qed.

Lemma COLUMN_MAPPINGS_columns_NoDup :
  Forall (fun item => NoDup (item.2.*1)) COLUMN_MAPPINGS_items.
Proof. apply (bool_decide_unpack _). vm_compute. exact I. Qed.

Lemma MIGRATION_ORDER_NoDup : NoDup MIGRATION_ORDER.
Proof. apply (bool_decide_unpack _). vm_compute. exact I. Qed.

Lemma COLUMN_MAPPINGS_lookup table (m : gmap string string) :
  COLUMN_MAPPINGS !! table = Some m ->
  exists ml, (table, ml) ∈ COLUMN_MAPPINGS_items /\ m = list_to_map ml.
Proof.
  intros Hm. apply elem_of_list_to_map_2 in Hm.
  apply list_elem_of_fmap in Hm as [[t ml] [Heq Hin]].
  simpl in Heq. injection Heq as -> ->. eauto.
Qed.

(** Every destination name of the tables is mapped to itself. *)
Lemma mapped_names_fixed :
  Forall (fun item => Forall (fun kd => map_column_name item.1 kd.2 = kd.2) item.2)
    COLUMN_MAPPINGS_items.
Proof. apply (bool_decide_unpack _). vm_compute. exact I. Qed.

Lemma map_column_name_cases table sqlite_col :
  map_column_name table sqlite_col = sqlite_col
  \/ exists ml, (table, ml) ∈ COLUMN_MAPPINGS_items
       /\ (lower sqlite_col, map_column_name table sqlite_col) ∈ ml.
Proof.
  unfold map_column_name.
  destruct (COLUMN_MAPPINGS !! table) as [m|] eqn:Hm; [|by left].
  destruct (m !! lower sqlite_col) as [d|] eqn:Hd; [|by left].
  right. apply COLUMN_MAPPINGS_lookup in Hm as [ml [Hin ->]].
  exists ml. split; [done|]. simpl. by apply elem_of_list_to_map_2.
Qed.

Lemma map_column_name_idempotent table sqlite_col :
  map_column_name table (map_column_name table sqlite_col)
  = map_column_name table sqlite_col.
Proof.
  destruct (map_column_name_cases table sqlite_col) as [H|[ml [Hin Hkd]]];
    [by rewrite !H|].
  pose proof mapped_names_fixed as HF.
  rewrite Forall_forall in HF. specialize (HF _ Hin). simpl in HF.
  rewrite Forall_forall in HF. exact (HF _ Hkd).
Qed.

(** C3. The column-name mapping returns a name for every table and column
    (it is a function on all pairs of strings); where the table has no
    rename map, or the lowercased column has no entry in it, the name is
    returned unchanged; and mapping a mapped name again changes nothing. *)
Theorem map_column_name_total_idempotent (table sqlite_col : string) :
  (exists pg_col, map_column_name table sqlite_col = pg_col)
  /\ (COLUMN_MAPPINGS !! table = None
      \/ (exists m : gmap string string,
             COLUMN_MAPPINGS !! table = Some m /\ m !! lower sqlite_col = None) ->
      map_column_name table sqlite_col = sqlite_col)
  /\ map_column_name table (map_column_name table sqlite_col)
     = map_column_name table sqlite_col.
Proof.
  split; [eauto|]. split; [|apply map_column_name_idempotent].
  unfold map_column_name. intros [->|[m [-> ->]]]; done.
Qed.

Lemma map_column_name_total_idempotent_witness :
  map_column_name "variables" "Key" = "Key"
  /\ map_column_name "tag_entity" "ID" = "ID"
  /\ map_column_name "tag_entity" (map_column_name "tag_entity" "CREATEDAT") = "createdAt"
  /\ map_column_name "user_api_keys"
       (map_column_name "user_api_keys" ("api" ++ kelvin_sign ++ "ey"))
     = "apiKey".
Proof.
  split; [|split; [|split]].
  - apply (proj1 (proj2 (map_column_name_total_idempotent "variables" "Key"))).
    left. vm_compute. reflexivity.
  - apply (proj1 (proj2 (map_column_name_total_idempotent "tag_entity" "ID"))).
    right.
    exists (list_to_map [("createdat", "createdAt"); ("updatedat", "updatedAt")]).
    split; vm_compute; reflexivity.
  - rewrite (proj2 (proj2 (map_column_name_total_idempotent "tag_entity" "CREATEDAT"))).
    vm_compute. reflexivity.
  - rewrite (proj2 (proj2 (map_column_name_total_idempotent "user_api_keys"
                             ("api" ++ kelvin_sign ++ "ey")))).
    vm_compute. reflexivity.
Defined.

(** ** Dicts and rows *)

Lemma dict_get_set_eq {V} k (v : V) d : dict_get (dict_set k v d) k = Some v.
Proof.
  induction d as [|[k' v'] d IH]; simpl.
  - by rewrite String.eqb_refl.
  - destruct (String.eqb k' k) eqn:E; simpl.
    + by rewrite String.eqb_refl.
    + by rewrite E.
Qed.

Lemma dict_get_set_ne {V} k k' (v : V) d :
  k <> k' -> dict_get (dict_set k v d) k' = dict_get d k'.
Proof.
  intros Hne. induction d as [|[k0 v0] d IH]; simpl.
  - destruct (String.eqb_spec k k'); [done|reflexivity].
  - destruct (String.eqb_spec k0 k) as [->|Hk0]; simpl.
    + destruct (String.eqb_spec k k'); done.
    + destruct (String.eqb_spec k0 k'); done.
Qed.

Lemma dict_set_nonempty {V} k (v : V) d : dict_set k v d <> [].
Proof. destruct d as [|[k' v'] d]; simpl; [done|]. by destruct (String.eqb k' k). Qed.

Lemma dict_get_key {V} (d : list (string * V)) k :
  k ∈ dict_keys d -> exists v, dict_get d k = Some v.
Proof.
  unfold dict_keys. induction d as [|[k' v'] d IH]; simpl; intros Hin.
  - by apply elem_of_nil in Hin.
  - destruct (String.eqb_spec k' k) as [->|Hne]; [eauto|].
    apply elem_of_cons in Hin as [->|Hin]; [done|]. by apply IH.
Qed.

(** [[data[col] for col in columns]] raises no [KeyError] on keys of the
    dict, and yields one value per column. *)
Lemma dict_values_ok {V} (d : list (string * V)) columns :
  (forall col, col ∈ columns -> col ∈ dict_keys d) ->
  exists values, map_exn (dict_getitem d) columns = inr values
                 /\ length values = length columns.
Proof.
  induction columns as [|c columns IH]; intros Hsub; simpl.
  - by exists [].
  - destruct (dict_get_key d c) as [v Hv]; [apply Hsub; by left|].
    destruct IH as [vs [-> Hlen]]; [intros col Hc; apply Hsub; by right|].
    unfold dict_getitem. rewrite Hv. exists (v :: vs). simpl. by rewrite Hlen.
Qed.

Lemma equal_ignore_case_refl a : equal_ignore_case a a = true.
Proof. unfold equal_ignore_case. by rewrite String.eqb_refl. Qed.

(** [row[key]] raises no [IndexError] when [key] comes from [row.keys()]. *)
Lemma row_getitem_key (row : Row) key :
  key ∈ row_keys row -> exists value, row_getitem row key = inr value.
Proof.
  unfold row_keys. induction row as [|[name v] row IH]; simpl; intros Hin.
  - by apply elem_of_nil in Hin.
  - destruct (equal_ignore_case key name) eqn:E; [eauto|].
    apply elem_of_cons in Hin as [->|Hin]; [|by apply IH].
    by rewrite equal_ignore_case_refl in E.
Qed.

Lemma fold_exn_app {A B} (body : B -> A -> Exn + B) xs ys acc :
  fold_exn body (xs ++ ys) acc
  = match fold_exn body xs acc with
    | inr acc' => fold_exn body ys acc'
    | inl e => inl e
    end.
Proof.
  revert acc. induction xs as [|x xs IH]; intros acc; simpl; [done|].
  destruct (body acc x); [done|apply IH].
Qed.

(** ** Row transformation *)

Section Transform.

Context (env : Env) (table_name : string) (pg_columns : list string) (row : Row).

Let field := transform_field env table_name pg_columns row.

Lemma transform_fields_ok keys data :
  (forall key, key ∈ keys -> key ∈ row_keys row) ->
  exists data', fold_exn field keys data = inr data'.
Proof.
  revert data. induction keys as [|key keys IH]; intros data Hsub; simpl; [eauto|].
  destruct (row_getitem_key row key) as [v Hv]; [apply Hsub; by left|].
  assert (exists d1, field data key = inr d1) as [d1 ->].
  { unfold field, transform_field. rewrite Hv. case_bool_decide; eauto. }
  apply IH. intros k Hk. apply Hsub. by right.
Qed.

(** The transformation of a row raises nothing. *)
Lemma transform_row_ok : exists data, transform_row env table_name pg_columns row = inr data.
Proof. by apply transform_fields_ok. Qed.

(** Keys that map elsewhere leave the entry of [pg_col] alone. *)
Lemma transform_fields_frame keys pg_col data data' :
  fold_exn field keys data = inr data' ->
  (forall key, key ∈ keys -> map_column_name table_name key <> pg_col) ->
  dict_get data' pg_col = dict_get data pg_col.
Proof.
  revert data. induction keys as [|key keys IH]; intros data Hfold Hne; simpl in *.
  - by injection Hfold as ->.
  - destruct (field data key) as [e|d1] eqn:Hf; [done|].
    rewrite (IH d1 Hfold); [|intros k Hk; apply Hne; by right].
    unfold field, transform_field in Hf.
    case_bool_decide; [|by injection Hf as ->].
    destruct (row_getitem row key); [done|]. injection Hf as <-.
    apply dict_get_set_ne, Hne. by left.
Qed.

(** Once a key is processed the mapping is not empty, whatever follows. *)
Lemma transform_fields_nonempty keys data data' :
  fold_exn field keys data = inr data' -> data <> [] -> data' <> [].
Proof.
  revert data. induction keys as [|key keys IH]; intros data Hfold Hne; simpl in *.
  - by injection Hfold as <-.
  - destruct (field data key) as [e|d1] eqn:Hf; [done|].
    apply (IH d1 Hfold).
    unfold field, transform_field in Hf.
    case_bool_decide; [|by injection Hf as <-].
    destruct (row_getitem row key); [done|]. injection Hf as <-.
    apply dict_set_nonempty.
Qed.

(** The entry of a destination column is the converted cell of the last
    source column that maps to it. *)
Lemma transform_row_last_writer (keys1 keys2 : list string) key value :
  row_keys row = (keys1 ++ key :: keys2)%list ->
  (forall k, k ∈ keys2 -> map_column_name table_name k <> map_column_name table_name key) ->
  map_column_name table_name key ∈ pg_columns ->
  row_getitem row key = inr value ->
  exists data,
    transform_row env table_name pg_columns row = inr data
    /\ dict_get data (map_column_name table_name key)
       = Some (convert_value env (map_column_name table_name key) value).
Proof.
  intros Hkeys Hlast Hin Hval.
  destruct transform_row_ok as [data Hdata]. exists data. split; [done|].
  unfold transform_row in Hdata. rewrite Hkeys, fold_exn_app in Hdata.
  fold field in Hdata.
  destruct (fold_exn field keys1 []) as [e|d1]; [done|]. simpl in Hdata.
  destruct (field d1 key) as [e|d2] eqn:Hf; [done|].
  rewrite (transform_fields_frame _ _ _ _ Hdata Hlast).
  unfold field, transform_field in Hf. rewrite Hval in Hf.
  rewrite bool_decide_eq_true_2 in Hf by done. injection Hf as <-.
  apply dict_get_set_eq.
Qed.

(** The mapping is empty exactly when no source column maps to a column
    of the destination table. *)
Lemma transform_row_empty_iff :
  transform_row env table_name pg_columns row = inr []
  <-> forall key, key ∈ row_keys row -> map_column_name table_name key ∉ pg_columns.
Proof.
  unfold transform_row. fold field. split.
  - intros Hdata key Hkey Hin.
    apply list_elem_of_split in Hkey as [keys1 [keys2 Hkeys]].
    rewrite Hkeys, fold_exn_app in Hdata.
    destruct (fold_exn field keys1 []) as [e|d1]; [done|]. simpl in Hdata.
    destruct (field d1 key) as [e|d2] eqn:Hf; [done|].
    apply (transform_fields_nonempty _ _ _ Hdata); [|done].
    unfold field, transform_field in Hf.
    rewrite bool_decide_eq_true_2 in Hf by done.
    destruct (row_getitem row key); [done|]. injection Hf as <-.
    apply dict_set_nonempty.
  - generalize (row_keys row). intros keys.
    induction keys as [|key keys IH]; intros Hnone; simpl; [done|].
    unfold field at 1, transform_field.
    rewrite bool_decide_eq_false_2 by (apply Hnone; by left).
    apply IH. intros k Hk. apply Hnone. by right.
Qed.

End Transform.

(** ** Coercion of cells *)

Lemma json_columns_not_boolean pg_col :
  pg_col ∈ json_columns -> pg_col ∉ boolean_columns.
Proof.
  assert (Forall (fun c => c ∉ boolean_columns) json_columns) as HF
    by (apply (bool_decide_unpack _); vm_compute; exact I).
  rewrite Forall_forall in HF. apply HF.
Qed.

Lemma convert_value_boolean env pg_col value :
  pg_col ∈ boolean_columns ->
  convert_value env pg_col value
  = match value with VNone => VNone | _ => VBool (py_bool value) end.
Proof.
  intros Hin. unfold convert_value.
  rewrite (bool_decide_eq_true_2 _ Hin). by destruct value.
Qed.

Lemma convert_value_json env pg_col s :
  pg_col ∈ json_columns -> convert_value env pg_col (VStr s) = VStr s.
Proof.
  intros Hin. unfold convert_value.
  rewrite (bool_decide_eq_false_2 _ (json_columns_not_boolean _ Hin)). simpl.
  rewrite (bool_decide_eq_true_2 _ Hin). by destruct (try_json_loads env s).
Qed.

Lemma py_bool_falsy value : falsy value -> py_bool value = false.
Proof. by destruct 1. Qed.

Lemma py_bool_truthy value : value <> VNone -> ~ falsy value -> py_bool value = true.
Proof.
  intros Hnone Hfalsy. destruct value as [|n|f|s|b|b]; simpl.
  - done.
  - destruct (Z.eqb_spec n 0) as [->|]; [|done]. destruct Hfalsy. constructor.
  - destruct f; try done. destruct Hfalsy. constructor.
  - destruct s; [|done]. destruct Hfalsy. constructor.
  - destruct b; [|done]. destruct Hfalsy. constructor.
  - destruct b; [done|]. destruct Hfalsy. constructor.
Qed.

(** C2. In a row whose column [key] is the last one to map to the
    destination column [pg_col], with [pg_col] a column of the destination
    table and one of the hardcoded boolean columns, the transformation
    stores under [pg_col]: null for a null cell, false for a cell that
    holds 0 or another value Python counts as false, and true for every
    other cell. *)
Theorem boolean_column_coercion (env : Env) (table_name : string)
    (pg_columns : list string) (row : Row) (keys1 keys2 : list string)
    (key : string) (value : Value) :
  let pg_col := map_column_name table_name key in
  row_keys row = (keys1 ++ key :: keys2)%list ->
  Forall (fun k => map_column_name table_name k <> pg_col) keys2 ->
  pg_col ∈ pg_columns ->
  pg_col ∈ boolean_columns ->
  row_getitem row key = inr value ->
  exists data stored,
    transform_row env table_name pg_columns row = inr data
    /\ dict_get data pg_col = Some stored
    /\ (value = VNone -> stored = VNone)
    /\ (falsy value -> stored = VBool false)
    /\ (value <> VNone -> ~ falsy value -> stored = VBool true).
Proof.
  intros pg_col Hkeys Hlast Hcol Hbool Hval.
  rewrite Forall_forall in Hlast.
  destruct (transform_row_last_writer env table_name pg_columns row
              keys1 keys2 key value Hkeys Hlast Hcol Hval) as [data [Hdata Hget]].
  exists data, (convert_value env pg_col value).
  split; [done|]. split; [done|].
  rewrite (convert_value_boolean env pg_col value Hbool).
  split; [by intros ->|]. split.
  - intros Hf. rewrite (py_bool_falsy _ Hf). by destruct Hf.
  - intros Hn Hf. rewrite (py_bool_truthy _ Hn Hf). by destruct value.
Qed.

Lemma boolean_column_coercion_witness :
  exists data stored,
    transform_row example_env "workflow_entity" ["id"; "name"; "active"] workflow_row
    = inr data
    /\ dict_get data "active" = Some stored
    /\ (VInt 0 = VNone -> stored = VNone)
    /\ (falsy (VInt 0) -> stored = VBool false)
    /\ (VInt 0 <> VNone -> ~ falsy (VInt 0) -> stored = VBool true).
Proof.
  apply (boolean_column_coercion example_env "workflow_entity"
           ["id"; "name"; "active"] workflow_row ["id"; "name"] ["nodes"]
           "active" (VInt 0)).
  - reflexivity.
  - apply (bool_decide_unpack _). vm_compute. exact I.
  - apply (bool_decide_unpack _). vm_compute. exact I.
  - apply (bool_decide_unpack _). vm_compute. exact I.
  - reflexivity.
Defined.

(** C7. In a row whose column [key] is the last one to map to the
    destination column [pg_col], with [pg_col] a column of the destination
    table and one of the JSON columns, a text cell is stored under [pg_col]
    as it is, whatever [json.loads] answers for it: a parsed value or an
    exception. *)
Theorem json_column_unchanged (env : Env) (table_name : string)
    (pg_columns : list string) (row : Row) (keys1 keys2 : list string)
    (key : string) (text : string) :
  let pg_col := map_column_name table_name key in
  row_keys row = (keys1 ++ key :: keys2)%list ->
  Forall (fun k => map_column_name table_name k <> pg_col) keys2 ->
  pg_col ∈ pg_columns ->
  pg_col ∈ json_columns ->
  row_getitem row key = inr (VStr text) ->
  exists data,
    transform_row env table_name pg_columns row = inr data
    /\ dict_get data pg_col = Some (VStr text)
    /\ (forall parsed, json_loads env text = inr parsed ->
         convert_value env pg_col (VStr text) = VStr text)
    /\ (forall e, json_loads env text = inl e ->
         convert_value env pg_col (VStr text) = VStr text).
Proof.
  intros pg_col Hkeys Hlast Hcol Hjson Hval.
  rewrite Forall_forall in Hlast.
  destruct (transform_row_last_writer env table_name pg_columns row
              keys1 keys2 key (VStr text) Hkeys Hlast Hcol Hval) as [data [Hdata Hget]].
  exists data. split; [done|].
  fold pg_col in Hget. rewrite (convert_value_json env pg_col text Hjson) in Hget.
  split; [done|]. split; intros ? _; by apply convert_value_json.
Qed.

Lemma json_column_unchanged_witness :
  exists data,
    transform_row example_env "workflow_entity" ["id"; "name"; "nodes"] workflow_row
    = inr data
    /\ dict_get data "nodes" = Some (VStr "[{]")
    /\ (forall parsed, json_loads example_env "[{]" = inr parsed ->
         convert_value example_env "nodes" (VStr "[{]") = VStr "[{]")
    /\ (forall e, json_loads example_env "[{]" = inl e ->
         convert_value example_env "nodes" (VStr "[{]") = VStr "[{]").
Proof.
  apply (json_column_unchanged example_env "workflow_entity"
           ["id"; "name"; "nodes"] workflow_row ["id"; "name"; "active"] []
           "nodes" "[{]").
  - reflexivity.
  - constructor.
  - apply (bool_decide_unpack _). vm_compute. exact I.
  - apply (bool_decide_unpack _). vm_compute. exact I.
  - reflexivity.
Defined.

(** ** One row *)

Lemma extends_refl P st : extends P st st.
Proof. repeat split. exists []. by rewrite app_nil_r. Qed.

Lemma extends_trans P st1 st2 st3 :
  extends P st1 st2 -> extends P st2 st3 -> extends P st1 st3.
Proof.
  intros (?&?&?&?&?&n1&Hn1&F1) (?&?&?&?&?&n2&Hn2&F2).
  repeat split; try congruence.
  exists (n1 ++ n2)%list. split; [by rewrite Hn2, Hn1, app_assoc|].
  by rewrite forallb_app, F1, F2.
Qed.

Lemma extends_weaken (P Q : Event -> bool) st st' :
  (forall e, P e = true -> Q e = true) -> extends P st st' -> extends Q st st'.
Proof.
  intros HPQ (?&?&?&?&?&new&Hn&HF). repeat split; try done.
  exists new. split; [done|]. rewrite forallb_forall in *. eauto.
Qed.

(** What the body of the row loop does, case by case. *)
Lemma migrate_row_cases env table_name pg_columns inserted skipped row st :
  exists data,
    transform_row env table_name pg_columns row = inr data
    /\ ((data = []
         /\ migrate_row env table_name pg_columns (inserted, skipped) row st
            = (inr (inserted, S skipped), st))
        \/ (data <> []
            /\ exists values,
                 map_exn (dict_getitem data) (dict_keys data) = inr values
                 /\ length values = length (dict_keys data)
                 /\ let sch := schema (pg_config st) in
                    let cells := zip (dict_keys data) values in
                    let st1 :=
                      emit (PgExecute (PgInsert sch table_name (dict_keys data) values)) st in
                    migrate_row env table_name pg_columns (inserted, skipped) row st
                    = match pg_insert_outcome env st sch table_name cells with
                      | Stored =>
                          (inr (S inserted, skipped),
                           set_pg (pg_pending st ++ [(table_name, cells)])
                                  (pg_committed st) st1)
                      | Conflict => (inr (S inserted, skipped), st1)
                      | Failed e =>
                          (inr (inserted, S skipped),
                           set_pg [] (pg_committed st)
                             (emit PgRollback
                                (emit (Stdout (LValues (take 3 values)))
                                   (emit (Stdout (LColumns (dict_keys data)))
                                      (emit (Stdout (LInsertError e)) st1)))))
                      end)).
Proof.
  destruct (transform_row_ok env table_name pg_columns row) as [data Hdata].
  exists data. split; [done|].
  unfold migrate_row, bind, lift. rewrite Hdata.
  case_bool_decide as Hempty; [by left|right]. split; [done|].
  destruct (dict_values_ok data (dict_keys data)) as [values [Hvalues Hlen]]; [done|].
  exists values. split; [done|]. split; [done|]. rewrite Hvalues.
  unfold try_except, pg_execute_insert, bind. cbn zeta.
  by destruct (pg_insert_outcome env st _ _ _).
Qed.

(** C5. A row none of whose columns maps to a column of the destination
    table has an empty mapping; the loop body then adds one to the skip
    counter, leaves the insert counter alone and returns in the state it
    started from: nothing was executed or printed, so no INSERT was sent. *)
Theorem empty_mapping_row_skipped (env : Env) (table_name : string)
    (pg_columns : list string) (row : Row) (inserted skipped : nat) (st : State) :
  Forall (fun key => map_column_name table_name key ∉ pg_columns) (row_keys row) ->
  transform_row env table_name pg_columns row = inr []
  /\ migrate_row env table_name pg_columns (inserted, skipped) row st
     = (inr (inserted, S skipped), st).
Proof.
  intros Hnone. rewrite Forall_forall in Hnone.
  apply (transform_row_empty_iff env) in Hnone.
  split; [done|].
  unfold migrate_row, bind, lift. rewrite Hnone. reflexivity.
Qed.

Lemma empty_mapping_row_skipped_witness :
  transform_row example_env "installed_packages" ["id"; "installedVersion"] package_row
  = inr []
  /\ migrate_row example_env "installed_packages" ["id"; "installedVersion"]
       (4, 2) package_row connected_state
     = (inr (4, 3), connected_state).
Proof.
  apply (empty_mapping_row_skipped example_env "installed_packages"
           ["id"; "installedVersion"] package_row 4 2 connected_state).
  apply (bool_decide_unpack _). vm_compute. exact I.
Defined.

Lemma emit_extends (P : Event -> bool) e st : P e = true -> extends P st (emit e st).
Proof.
  intros HP. repeat split. exists [e]. split; [done|]. simpl. by rewrite HP.
Qed.

Lemma set_pg_extends (P : Event -> bool) pending committed st st' :
  extends P st st' -> extends P st (set_pg pending committed st').
Proof. intros (?&?&?&?&?&?). by repeat split. Qed.

(** With a rollback that returns, the loop body never raises and moves
    exactly one counter by one. *)
Lemma migrate_row_step env table_name pg_columns inserted skipped row st :
  exists inserted' skipped' st',
    migrate_row env table_name pg_columns (inserted, skipped) row st
    = (inr (inserted', skipped'), st')
    /\ ((inserted' = S inserted /\ skipped' = skipped)
        \/ (inserted' = inserted /\ skipped' = S skipped))
    /\ extends row_event st st'.
Proof.
  destruct (migrate_row_cases env table_name pg_columns inserted skipped row st)
    as [data [_ [[_ Heq]|[_ [values [_ [_ Heq]]]]]]].
  - exists inserted, (S skipped), st. split; [done|]. split; [by right|].
    apply extends_refl.
  - cbn zeta in Heq. rewrite Heq.
    destruct (pg_insert_outcome env st _ _ _) as [| |e].
    + eexists _, _, _. split; [done|]. split; [by left|].
      by apply set_pg_extends, emit_extends.
    + eexists _, _, _. split; [done|]. split; [by left|].
      by apply emit_extends.
    + eexists _, _, _. split; [done|]. split; [by right|].
      apply set_pg_extends.
      do 4 (eapply extends_trans; [|by apply emit_extends]).
      by apply emit_extends.
Qed.

(** With rollbacks that return, the row loop never raises, and the
    counters grow by the number of rows. *)
Lemma migrate_rows_count env table_name pg_columns rows inserted skipped st :
  exists inserted' skipped' st',
    for_each (migrate_row env table_name pg_columns) rows (inserted, skipped) st
    = (inr (inserted', skipped'), st')
    /\ inserted' + skipped' = inserted + skipped + length rows
    /\ extends row_event st st'.
Proof.
  revert inserted skipped st.
  induction rows as [|row rows IH]; intros inserted skipped st;
    cbn [for_each length].
  - exists inserted, skipped, st. split; [done|]. split; [lia|]. apply extends_refl.
  - destruct (migrate_row_step env table_name pg_columns inserted skipped row st)
      as (i1 & s1 & st1 & Heq & Hcount & Hext).
    unfold bind. rewrite Heq.
    destruct (IH i1 s1 st1) as (i2 & s2 & st2 & Heq2 & Hsum & Hext2).
    exists i2, s2, st2. split; [done|]. split; [lia|].
    by eapply extends_trans.
Qed.

(** A failed INSERT: the error, the columns and the first three values are
    printed, the connection is rolled back, the row counts as skipped and
    the loop goes on with the rest of the rows. *)
Lemma insert_failure_row_skipped env table_name pg_columns inserted skipped
    row rows st data values e :
  transform_row env table_name pg_columns row = inr data ->
  data <> [] ->
  map_exn (dict_getitem data) (dict_keys data) = inr values ->
  pg_insert_outcome env st (schema (pg_config st)) table_name
    (zip (dict_keys data) values) = Failed e ->
  let insert := PgExecute (PgInsert (schema (pg_config st)) table_name (dict_keys data) values) in
  let st' :=
    mkState (sqlite_path st) (pg_config st) (sqlite_conn st) (pg_conn st) (stats st)
      [] (pg_committed st)
      (trace st ++ [ insert; Stdout (LInsertError e); Stdout (LColumns (dict_keys data));
                     Stdout (LValues (take 3 values)); PgRollback ]) in
  for_each (migrate_row env table_name pg_columns) (row :: rows) (inserted, skipped) st
  = for_each (migrate_row env table_name pg_columns) rows (inserted, S skipped) st'.
Proof.
  intros Hdata Hne Hvalues Hfail. cbn [for_each].
  destruct (migrate_row_cases env table_name pg_columns inserted skipped row st)
    as [data' [Hdata' [[-> _]|[_ [values' [Hvalues' [_ Heq]]]]]]].
  - congruence.
  - assert (data' = data) as -> by congruence.
    assert (values' = values) as -> by congruence.
    cbn zeta in Heq. rewrite Hfail in Heq.
    unfold bind. rewrite Heq. f_equal.
    unfold set_pg, emit. simpl. by rewrite <- !app_assoc.
Qed.

(** C1, evaluated.  The table has two rows; the INSERT of the first is
    accepted and the INSERT of the second raises.  [migrate_table] reports
    one row inserted and one skipped, and commits, but the destination
    holds no row: the rollback for the second row took the first with it.
    Without the second row, the first row is committed. *)
Theorem rollback_discards_earlier_insert :
  migrate_table tag_env "tag_entity" connected_state
  = (inr (1, 1),
     mkState "database.sqlite" example_cfg (Some ConnOpen) (Some ConnOpen) []
       [] []
       tag_trace)
  /\ (migrate_table tag_env_first_row "tag_entity" connected_state).1 = inr (1, 0)
  /\ pg_committed (migrate_table tag_env_first_row "tag_entity" connected_state).2
     = [ ("tag_entity",
          [ ("id", VInt 1); ("name", VStr "urgent");
            ("createdAt", VStr "2024-01-01"); ("updatedAt", VStr "2024-01-02") ]) ].
Proof. repeat split; vm_compute; reflexivity. Qed.

(** ** Traces *)

Lemma attempted_app (tr1 tr2 : list Event) :
  attempted (tr1 ++ tr2) = (attempted tr1 ++ attempted tr2)%list.
Proof. apply omap_app. Qed.

Lemma fetched_rows_app (tr1 tr2 : list Event) :
  fetched_rows (tr1 ++ tr2) = fetched_rows tr1 + fetched_rows tr2.
Proof. apply sum_list_with_app. Qed.

Lemma attempted_none (new : list Event) :
  forallb not_banner new = true -> attempted new = [].
Proof.
  induction new as [|e new IH]; simpl; [done|].
  intros [He Hnew]%andb_prop. unfold attempted in *. simpl.
  unfold not_banner in He. destruct (attempted_table e); [done|]. by apply IH.
Qed.

Lemma row_events_fetch_nothing (new : list Event) :
  forallb row_event new = true -> fetched_rows new = 0.
Proof.
  induction new as [|e new IH]; simpl; [done|].
  intros [He Hnew]%andb_prop. unfold fetched_rows in *. simpl.
  rewrite (IH Hnew). by destruct e.
Qed.

Lemma row_event_not_banner e : row_event e = true -> not_banner e = true.
Proof. destruct e as [[]| | | | | | |[]| | | | | | | |]; done. Qed.

Lemma extends_attempted st st' :
  extends not_banner st st' -> attempted (trace st') = attempted (trace st).
Proof.
  intros (_&_&_&_&_&new&->&HF).
  by rewrite attempted_app, (attempted_none _ HF), app_nil_r.
Qed.

(** ** One table *)

Ltac extends_steps :=
  repeat lazymatch goal with
         | |- extends _ ?st ?st => apply extends_refl
         | |- extends _ _ (set_pg _ _ _) => apply set_pg_extends
         | |- extends _ _ (emit _ _) =>
             eapply extends_trans; [|by apply emit_extends]
         end.

Lemma fetched_rows_emit e st :
  fetched_rows (trace (emit e st)) = fetched_rows (trace st) + fetched_count e.
Proof. simpl. rewrite fetched_rows_app. simpl. lia. Qed.

Lemma fetched_rows_set_pg pending committed st :
  fetched_rows (trace (set_pg pending committed st)) = fetched_rows (trace st).
Proof. done. Qed.

Lemma extends_row_fetched st st' :
  extends row_event st st' -> fetched_rows (trace st') = fetched_rows (trace st).
Proof.
  intros (_&_&_&_&_&new&->&HF).
  rewrite fetched_rows_app, (row_events_fetch_nothing _ HF). lia.
Qed.

(** The statements under the outer [try:] add no banner line, leave the
    attributes of the migrator alone and, when they return, return counters
    that add up to the number of rows fetched. *)
Lemma migrate_table_try_spec env table_name st :
  exists r st',
    migrate_table_try env table_name st = (r, st')
    /\ extends not_banner st st'
    /\ (forall c, r = inr c ->
          fetched_rows (trace st') = fetched_rows (trace st) + (c.1 + c.2)).
Proof.
  unfold migrate_table_try, get_table_columns, sqlite_count, sqlite_select_all,
    sqlite_query, pg_commit, print, ret, bind.
  destruct (pg_columns_of env st _ table_name) as [e|pg_columns].
  { eexists _, _. split; [done|]. split; [extends_steps|]. done. }
  case_bool_decide as Hcols.
  { eexists _, _. split; [done|]. split; [extends_steps|].
    intros c [= <-]. rewrite !fetched_rows_emit. simpl. lia. }
  destruct (sqlite_tables env !! table_name) as [rows|].
  2:{ eexists _, _. split; [done|]. split; [extends_steps|]. done. }
  case_bool_decide as Hrows.
  { eexists _, _. split; [done|]. split; [extends_steps|].
    intros c [= <-]. rewrite !fetched_rows_emit. simpl. lia. }
  match goal with
  | |- context [for_each ?f rows ?acc ?s] =>
      destruct (migrate_rows_count env table_name pg_columns rows 0 0 s)
        as (inserted & skipped & st2 & Heq & Hsum & Hext)
  end.
  rewrite Heq.
  assert (extends not_banner st st2) as Hext'.
  { eapply extends_trans;
      [|eapply extends_weaken; [apply row_event_not_banner|exact Hext]].
    extends_steps. }
  assert (fetched_rows (trace st2) = fetched_rows (trace st) + length rows) as Hfetch.
  { rewrite (extends_row_fetched _ _ Hext), !fetched_rows_emit. simpl. lia. }
  destruct (pg_commit_error env st2) as [e|].
  { eexists _, _. split; [done|]. split; [|done].
    eapply extends_trans; [exact Hext'|]. extends_steps. }
  eexists _, _. split; [done|]. split.
  { eapply extends_trans; [exact Hext'|]. extends_steps. }
  intros c [= <-].
  rewrite !fetched_rows_emit, fetched_rows_set_pg, !fetched_rows_emit, Hfetch.
  simpl. lia.
Qed.

(** On a connected migrator whose connection stays usable [migrate_table]
    always returns: what the statements under [try:] return, or (0, 0)
    after the handler. *)
Lemma migrate_table_unfold env table_name st :
  connected st ->
  migrate_table env table_name st
  = match migrate_table_try env table_name (after_banner table_name st) with
    | (inr c, st1) => (inr c, close_cursors st1)
    | (inl e, st1) => (inr (0, 0), close_cursors (after_table_error table_name e st1))
    end.
Proof.
  intros [Hsqlite Hpg].
  unfold migrate_table, bind, print, sqlite_cursor, pg_cursor, try_finally, try_except, ret.
  change (sqlite_conn (emit _ (emit _ (emit _ st)))) with (sqlite_conn st).
  rewrite Hsqlite. cbn [cursor ret].
  change (pg_conn (emit _ (emit _ (emit _ st)))) with (pg_conn st).
  rewrite Hpg. cbn [cursor ret].
  fold (after_banner table_name st).
  by destruct (migrate_table_try env table_name (after_banner table_name st)) as [[e|c] st1].
Qed.

Lemma connected_extends P st st' : extends P st st' -> connected st -> connected st'.
Proof. intros (_&_&Hs&Hp&_) [? ?]. split; congruence. Qed.

Lemma after_banner_extends table_name st :
  extends (fun _ => true) st (after_banner table_name st).
Proof. unfold after_banner. extends_steps. Qed.

Lemma close_cursors_extends P st :
  P SqliteCursorClose = true -> P PgCursorClose = true ->
  extends P st (close_cursors st).
Proof. intros. unfold close_cursors. extends_steps. Qed.

(** A call of [migrate_table] on a connected migrator returns counters,
    prints its banner once and leaves the migrator connected. *)
Lemma migrate_table_returns env table_name st :
  connected st ->
  exists c st',
    migrate_table env table_name st = (inr c, st')
    /\ extends (fun _ => true) st st'
    /\ attempted (trace st') = (attempted (trace st) ++ [table_name])%list.
Proof.
  intros Hconn. rewrite (migrate_table_unfold _ _ _ Hconn).
  destruct (migrate_table_try_spec env table_name (after_banner table_name st))
    as (r & st1 & -> & Hext & _).
  assert (attempted (trace (after_banner table_name st))
          = (attempted (trace st) ++ [table_name])%list) as Hban.
  { unfold after_banner. cbn [trace emit]. rewrite !attempted_app.
    change (attempted [Stdout LRule]) with (@nil string).
    change (attempted [Stdout (LMigratingTable table_name)]) with [table_name].
    by rewrite !app_nil_r. }
  assert (extends (fun _ => true) st st1) as Hext1.
  { eapply extends_trans; [apply after_banner_extends|].
    by eapply extends_weaken; [|exact Hext]. }
  destruct r as [e|c].
  - eexists _, _. split; [done|]. split.
    + eapply extends_trans; [exact Hext1|].
      unfold close_cursors, after_table_error. extends_steps.
    + cbn [close_cursors after_table_error trace emit set_pg].
      rewrite !attempted_app, (extends_attempted _ _ Hext), Hban. simpl.
      by rewrite !app_nil_r.
  - eexists _, _. split; [done|]. split.
    + eapply extends_trans; [exact Hext1|]. unfold close_cursors. extends_steps.
    + cbn [close_cursors trace emit].
      rewrite !attempted_app, (extends_attempted _ _ Hext), Hban. simpl.
      by rewrite !app_nil_r.
Qed.

(** C4. On a connected migrator, when the catalog query for the table
    returns no column, [migrate_table] returns (0, 0) and raises nothing;
    it prints the banner and the warning, and after the catalog query it
    only closes the two cursors: no statement is sent to the source. *)
Theorem missing_table_skipped (env : Env) (table_name : string) (st : State) :
  connected st ->
  pg_columns_of env (after_banner table_name st) (schema (pg_config st)) table_name
  = inr [] ->
  let new :=
    [ Stdout LRule; Stdout (LMigratingTable table_name); Stdout LRule;
      PgExecute (PgSelectColumns (schema (pg_config st)) table_name); PgFetchall;
      Stdout (LTableNotFound table_name); SqliteCursorClose; PgCursorClose ] in
  migrate_table env table_name st
  = (inr (0, 0),
     mkState (sqlite_path st) (pg_config st) (sqlite_conn st) (pg_conn st)
       (stats st) (pg_pending st) (pg_committed st) (trace st ++ new))
  /\ In (Stdout (LTableNotFound table_name)) new
  /\ forallb (fun e => negb (is_sqlite_execute e)) new = true
  /\ forallb (fun e => negb (is_pg_insert e)) new = true.
Proof.
  intros Hconn Hcols new.
  split; [|split; [simpl; tauto|split; reflexivity]].
  rewrite (migrate_table_unfold _ _ _ Hconn).
  unfold migrate_table_try, get_table_columns, bind, print, ret.
  cbn [pg_config after_banner emit]. rewrite Hcols.
  cbn [bool_decide decide_rel]. simpl.
  unfold close_cursors, emit. simpl. by rewrite <- !app_assoc.
Qed.

Lemma missing_table_skipped_witness :
  let st := connected_state in
  let new :=
    [ Stdout LRule; Stdout (LMigratingTable "settings"); Stdout LRule;
      PgExecute (PgSelectColumns (schema (pg_config st)) "settings"); PgFetchall;
      Stdout (LTableNotFound "settings"); SqliteCursorClose; PgCursorClose ] in
  migrate_table tag_env "settings" st
  = (inr (0, 0),
     mkState (sqlite_path st) (pg_config st) (sqlite_conn st) (pg_conn st)
       (stats st) (pg_pending st) (pg_committed st) (trace st ++ new))
  /\ In (Stdout (LTableNotFound "settings")) new
  /\ forallb (fun e => negb (is_sqlite_execute e)) new = true
  /\ forallb (fun e => negb (is_pg_insert e)) new = true.
Proof.
  apply (missing_table_skipped tag_env "settings" connected_state).
  - split; reflexivity.
  - vm_compute. reflexivity.
Defined.

(** C9. On a connected migrator, when the destination table has columns
    and the source table holds no row, [migrate_table] returns (0, 0):
    after the catalog query it counts the source rows, prints that the
    table is empty and closes the two cursors; it neither selects the rows
    nor sends an INSERT. *)
Theorem empty_source_table_skipped (env : Env) (table_name : string)
    (pg_columns : list string) (st : State) :
  connected st ->
  pg_columns_of env (after_banner table_name st) (schema (pg_config st)) table_name
  = inr pg_columns ->
  pg_columns <> [] ->
  sqlite_tables env !! table_name = Some [] ->
  let new :=
    [ Stdout LRule; Stdout (LMigratingTable table_name); Stdout LRule;
      PgExecute (PgSelectColumns (schema (pg_config st)) table_name); PgFetchall;
      SqliteExecute (SqliteCount table_name); SqliteFetchone;
      Stdout (LTableEmpty table_name); SqliteCursorClose; PgCursorClose ] in
  migrate_table env table_name st
  = (inr (0, 0),
     mkState (sqlite_path st) (pg_config st) (sqlite_conn st) (pg_conn st)
       (stats st) (pg_pending st) (pg_committed st) (trace st ++ new))
  /\ forallb (fun e => negb (is_sqlite_fetchall e)) new = true
  /\ forallb (fun e => negb (is_pg_insert e)) new = true.
Proof.
  intros Hconn Hcols Hne Hrows new.
  split; [|split; reflexivity].
  rewrite (migrate_table_unfold _ _ _ Hconn).
  unfold migrate_table_try, get_table_columns, sqlite_count, sqlite_query,
    bind, print, ret.
  cbn [pg_config after_banner emit]. rewrite Hcols.
  rewrite (bool_decide_eq_false_2 _ Hne), Hrows.
  cbn [length]. rewrite bool_decide_eq_true_2 by done.
  unfold close_cursors, emit. simpl. by rewrite <- !app_assoc.
Qed.

Lemma empty_source_table_skipped_witness :
  let st := connected_state in
  let new :=
    [ Stdout LRule; Stdout (LMigratingTable "tag_entity"); Stdout LRule;
      PgExecute (PgSelectColumns (schema (pg_config st)) "tag_entity"); PgFetchall;
      SqliteExecute (SqliteCount "tag_entity"); SqliteFetchone;
      Stdout (LTableEmpty "tag_entity"); SqliteCursorClose; PgCursorClose ] in
  migrate_table tag_env_empty "tag_entity" st
  = (inr (0, 0),
     mkState (sqlite_path st) (pg_config st) (sqlite_conn st) (pg_conn st)
       (stats st) (pg_pending st) (pg_committed st) (trace st ++ new))
  /\ forallb (fun e => negb (is_sqlite_fetchall e)) new = true
  /\ forallb (fun e => negb (is_pg_insert e)) new = true.
Proof.
  apply (empty_source_table_skipped tag_env_empty "tag_entity" tag_columns
           connected_state).
  - split; reflexivity.
  - vm_compute. reflexivity.
  - discriminate.
  - vm_compute. reflexivity.
Defined.



(** ** All tables *)

Lemma same_connections_refl st : same_connections st st.
Proof. by repeat split. Qed.

Lemma same_connections_trans st1 st2 st3 :
  same_connections st1 st2 -> same_connections st2 st3 -> same_connections st1 st3.
Proof. intros (?&?&?&?) (?&?&?&?). repeat split; congruence. Qed.

Lemma extends_same_connections P st st' : extends P st st' -> same_connections st st'.
Proof. intros (?&?&?&?&_). by repeat split. Qed.

Lemma same_connections_connected st st' :
  same_connections st st' -> connected st -> connected st'.
Proof. intros (_&_&?&?) [? ?]. split; congruence. Qed.

Lemma migrate_all_step_returns env totals table st :
  connected st ->
  exists c st1,
    migrate_table env table st = (inr c, st1)
    /\ migrate_all_step env totals table st
       = (inr (totals.1 + c.1, totals.2 + c.2),
          set_stats (dict_set table c (stats st1)) st1)
    /\ same_connections st st1
    /\ attempted (trace st1) = (attempted (trace st) ++ [table])%list.
Proof.
  intros Hconn.
  destruct (migrate_table_returns env table st Hconn) as (c & st1 & Heq & Hext & Hatt).
  exists c, st1. split; [done|].
  split; [|split; [by eapply extends_same_connections|done]].
  unfold migrate_all_step, bind. by rewrite Heq.
Qed.

(** The loop over the tables never stops early: it returns, and the
    banners it printed name the tables of the list, each once, in order. *)
Lemma migrate_tables_returns env order totals st :
  connected st ->
  exists totals' st',
    for_each (migrate_all_step env) order totals st = (inr totals', st')
    /\ same_connections st st'
    /\ attempted (trace st') = (attempted (trace st) ++ order)%list.
Proof.
  revert totals st. induction order as [|table order IH]; intros totals st Hconn;
    cbn [for_each].
  - exists totals, st. split; [done|]. split; [apply same_connections_refl|].
    by rewrite app_nil_r.
  - destruct (migrate_all_step_returns env totals table st Hconn)
      as (c & st1 & _ & Hstep & Hsame1 & Hatt1).
    unfold bind. rewrite Hstep.
    destruct (IH (totals.1 + c.1, totals.2 + c.2)
                 (set_stats (dict_set table c (stats st1)) st1))
      as (totals' & st' & Heq & Hsame' & Hatt').
    { by apply (same_connections_connected st). }
    exists totals', st'. split; [done|]. split.
    + eapply same_connections_trans; [exact Hsame1|exact Hsame'].
    + rewrite Hatt'. cbn [trace set_stats]. rewrite Hatt1.
      by rewrite <- app_assoc.
Qed.

Lemma print_summary_returns items st :
  exists st', print_summary items st = (inr tt, st') /\ extends not_banner st st'.
Proof.
  revert st. induction items as [|[table [inserted skipped]] items IH]; intros st;
    cbn [print_summary].
  - exists st. split; [done|]. apply extends_refl.
  - unfold bind.
    destruct ((0 <? inserted)%nat || (0 <? skipped)%nat).
    + unfold print at 1.
      destruct (IH (emit (Stdout (LSummaryRow table inserted skipped)) st))
        as (st' & -> & Hext).
      exists st'. split; [done|].
      eapply extends_trans; [|exact Hext]. by apply emit_extends.
    + unfold ret at 1. apply IH.
Qed.

(** [migrate_all] on a connected migrator returns, with the connections as
    they were and one banner per table of [MIGRATION_ORDER], in order. *)
Lemma migrate_all_returns env st :
  connected st ->
  exists st',
    migrate_all env st = (inr tt, st')
    /\ same_connections st st'
    /\ attempted (trace st') = (attempted (trace st) ++ MIGRATION_ORDER)%list.
Proof.
  intros Hconn. unfold migrate_all, bind, print.
  set (st_a := emit (Stdout LTime) _).
  assert (extends not_banner st st_a) as Hext_a by (unfold st_a; extends_steps).
  destruct (migrate_tables_returns env MIGRATION_ORDER (0, 0) st_a)
    as (totals & st1 & -> & Hsame1 & Hatt1).
  { by apply (connected_extends _ _ _ Hext_a). }
  set (st_b := emit (Stdout LRule) (emit (Stdout LSummary) (emit (Stdout LRule) st1))).
  assert (extends not_banner st1 st_b) as Hext_b by (unfold st_b; extends_steps).
  destruct (print_summary_returns (stats st_b) st_b) as (st2 & -> & Hext2).
  eexists. split; [done|].
  assert (extends not_banner st1
            (emit (Stdout LRule) (emit (Stdout (LTotal totals.1 totals.2)) st2))) as Hext.
  { eapply extends_trans; [exact Hext_b|].
    eapply extends_trans; [exact Hext2|]. extends_steps. }
  split.
  - eapply same_connections_trans; [by eapply extends_same_connections|].
    eapply same_connections_trans; [exact Hsame1|].
    by eapply extends_same_connections.
  - by rewrite (extends_attempted _ _ Hext), Hatt1, (extends_attempted _ _ Hext_a).
Qed.

(** ** The whole run *)

Lemma verify_migration_spec env st :
  connected st ->
  exists r st',
    verify_migration env st = (r, st')
    /\ same_connections st st'
    /\ (r = inr tt
        \/ exists e s table,
             r = inl e /\ In table verified_tables
             /\ pg_count_result env s (schema (pg_config st)) table = inl e).
Proof.
  intros [Hsqlite Hpg].
  unfold verify_migration, bind, print, pg_cursor.
  change (pg_conn (emit _ (emit _ (emit _ st)))) with (pg_conn st).
  rewrite Hpg. cbn [cursor ret]. unfold pg_select_count.
  cbn [pg_config emit].
  repeat lazymatch goal with
  | |- context [pg_count_result env ?s ?sch ?t] =>
      let E := fresh "E" in
      destruct (pg_count_result env s sch t) as [?e|?n] eqn:E;
      [ eexists _, _; split; [reflexivity|]; split; [by repeat split|];
        right; eexists _, _, _; split; [reflexivity|]; split; [|exact E];
        simpl; tauto
      | cbn [pg_config emit] ]
  end.
  eexists _, _. split; [reflexivity|]. split; [by repeat split|]. by left.
Qed.

(** The statements under the [try:] of [main], on a fresh migrator. *)
Lemma main_try_spec env st :
  exists r st1,
    main_try env st = (r, st1)
    /\ match sqlite3_connect_error env (sqlite_path st) with
       | Some e =>
           r = inl e /\ sqlite_conn st1 = sqlite_conn st /\ pg_conn st1 = pg_conn st
       | None =>
           match psycopg2_connect_error env (pg_config st) with
           | Some e =>
               r = inl e /\ sqlite_conn st1 = Some ConnOpen /\ pg_conn st1 = pg_conn st
           | None =>
               connected st1
               /\ (r = inr 0%Z
                   \/ exists e s table,
                        r = inl e /\ In table verified_tables
                        /\ pg_count_result env s (schema (pg_config st)) table = inl e)
           end
       end.
Proof.
  unfold main_try, bind. unfold connect at 1. cbn [sqlite_path pg_config emit set_sqlite_conn].
  destruct (sqlite3_connect_error env (sqlite_path st)) as [e|].
  { eexists _, _. split; [reflexivity|]. by repeat split. }
  destruct (psycopg2_connect_error env (pg_config st)) as [e|].
  { eexists _, _. split; [reflexivity|]. by repeat split. }
  set (st_c := set_pg_conn _ _).
  assert (connected st_c) as Hc by (by split).
  assert (pg_config st_c = pg_config st) as Hcfg by reflexivity.
  destruct (migrate_all_returns env st_c Hc) as (st_m & -> & Hsame_m & _).
  assert (connected st_m) as Hm by (by apply (same_connections_connected st_c)).
  destruct (verify_migration_spec env st_m Hm) as (r & st_v & -> & Hsame_v & Hr).
  assert (connected st_v) as Hv by (by apply (same_connections_connected st_m)).
  assert (pg_config st_m = pg_config st) as Hcfg_m
    by (destruct Hsame_m as (_&->&_); exact Hcfg).
  destruct Hr as [->|(e & s & table & -> & Hin & Hfail)].
  - eexists _, _. split; [reflexivity|].
    split; [|by left]. destruct Hv. by split.
  - eexists _, _. split; [reflexivity|]. split; [done|].
    right. exists e, s, table. rewrite <- Hcfg_m. by repeat split.
Qed.

Lemma close_spec st :
  exists st',
    close st = (inr tt, st')
    /\ sqlite_conn st' = (fun _ => ConnClosed) <$> sqlite_conn st
    /\ pg_conn st' = (fun _ => ConnClosed) <$> pg_conn st
    /\ (is_Some (sqlite_conn st) -> In SqliteClose (trace st'))
    /\ (is_Some (pg_conn st) -> In PgClose (trace st')).
Proof.
  unfold close.
  destruct (sqlite_conn st) as [c1|] eqn:E1;
    [change (pg_conn (set_sqlite_conn _ (emit _ st))) with (pg_conn st)|];
    destruct (pg_conn st) as [c2|] eqn:E2;
    eexists; (split; [reflexivity|]); simpl; rewrite ?E1, ?E2;
    repeat split; try done;
    try (by intros [? [=]]);
    intros _; rewrite ?in_app_iff; simpl; tauto.
Qed.

Lemma close_keeps_trace st e : In e (trace st) -> In e (trace (close st).2).
Proof.
  intros Hin. unfold close.
  destruct (sqlite_conn st) as [c1|];
    [change (pg_conn (set_sqlite_conn _ (emit _ st))) with (pg_conn st)|];
    destruct (pg_conn st) as [c2|]; simpl; rewrite ?in_app_iff; tauto.
Qed.

(** C8. [main] always hands an exit code to [sys.exit], 0 or 1.  It is 0
    exactly when [connect], [migrate_all] and [verify_migration] all
    return, which is the case whenever both connections are established
    and the three counting queries succeed, whatever the tables hold and
    however many rows or tables were skipped.  It is 1 when a statement of
    the [try:] raises, as when either connection fails, and then the
    failure line and the traceback on the error stream are in the trace.
    In each case no connection is open at the end: every connection that
    was established has been closed. *)
Theorem main_exit_code (env : Env) (sqlite : string) (cfg : PgConfig)
    (committed : list PgRow) :
  let st0 := N8NMigrator_init sqlite cfg committed in
  exists code st',
    main env sqlite cfg committed = (inr code, st')
    /\ (code = 0 \/ code = 1)%Z
    /\ (code = 0%Z <-> exists s, main_try env st0 = (inr 0%Z, s))
    /\ (forall e s, main_try env st0 = (inl e, s) ->
          code = 1%Z
          /\ In (Stdout (LFailed e)) (trace st')
          /\ In (Stderr (LTraceback e)) (trace st'))
    /\ (forall e, sqlite3_connect_error env sqlite = Some e -> code = 1%Z)
    /\ (forall e, sqlite3_connect_error env sqlite = None ->
          psycopg2_connect_error env cfg = Some e -> code = 1%Z)
    /\ (sqlite3_connect_error env sqlite = None ->
        psycopg2_connect_error env cfg = None ->
        (forall s table, In table verified_tables ->
           exists n, pg_count_result env s (schema cfg) table = inr n) ->
        code = 0%Z)
    /\ sqlite_conn st' <> Some ConnOpen
    /\ pg_conn st' <> Some ConnOpen
    /\ (sqlite3_connect_error env sqlite = None ->
        sqlite_conn st' = Some ConnClosed /\ In SqliteClose (trace st'))
    /\ (sqlite3_connect_error env sqlite = None ->
        psycopg2_connect_error env cfg = None ->
        pg_conn st' = Some ConnClosed /\ In PgClose (trace st')).
Proof.
  intros st0. unfold main, try_finally, try_except. fold st0.
  destruct (main_try_spec env st0) as (r & st1 & Heq & Hcases).
  rewrite Heq. change (sqlite_path st0) with sqlite in Hcases.
  change (pg_config st0) with cfg in Hcases.
  change (sqlite_conn st0) with (@None Conn) in Hcases.
  change (pg_conn st0) with (@None Conn) in Hcases.
  destruct r as [e|z].
  - unfold bind, print, ret.
    set (st_h := emit (Stderr (LTraceback e)) (emit (Stdout (LFailed e)) st1)).
    destruct (close_spec st_h) as (st' & Hclose & Hs & Hp & HsC & HpC).
    pose proof (close_keeps_trace st_h) as Hkeep. rewrite Hclose in *.
    cbn [snd] in Hkeep.
    change (sqlite_conn st_h) with (sqlite_conn st1) in *.
    change (pg_conn st_h) with (pg_conn st1) in *.
    exists 1%Z, st'. split; [reflexivity|]. split; [by right|].
    split; [split; [done|by intros [? [=]]]|].
    split.
    { intros e' s [= <- <-]. split; [done|].
      split; apply Hkeep; unfold st_h; cbn [trace emit]; rewrite !in_app_iff;
        simpl; tauto. }
    split; [done|]. split; [done|].
    destruct (sqlite3_connect_error env sqlite) as [e1|].
    { destruct Hcases as (_ & Hs1 & Hp1). rewrite Hs1 in Hs. rewrite Hp1 in Hp.
      rewrite Hs, Hp. by repeat split. }
    destruct (psycopg2_connect_error env cfg) as [e2|].
    { destruct Hcases as (_ & Hs1 & Hp1). rewrite Hs1 in Hs, HsC. rewrite Hp1 in Hp.
      rewrite Hs, Hp. repeat split; try done. by apply HsC. }
    destruct Hcases as ([Hs1 Hp1] & [[=]|(e' & s & table & [= <-] & Hin & Hfail)]).
    rewrite Hs1 in Hs, HsC. rewrite Hp1 in Hp, HpC. rewrite Hs, Hp.
    split.
    { intros _ _ Hcount. destruct (Hcount s table Hin) as [n Hn]. congruence. }
    repeat split; try done; intros; [by apply HsC|by apply HpC].
  - destruct (close_spec st1) as (st' & Hclose & Hs & Hp & HsC & HpC).
    rewrite Hclose.
    destruct (sqlite3_connect_error env sqlite) as [e1|]; [by destruct Hcases|].
    destruct (psycopg2_connect_error env cfg) as [e2|]; [by destruct Hcases|].
    destruct Hcases as ([Hs1 Hp1] & [[= ->]|(e' & _ & _ & [=] & _)]).
    rewrite Hs1 in Hs, HsC. rewrite Hp1 in Hp, HpC.
    exists 0%Z, st'. rewrite Hs, Hp. split; [reflexivity|]. split; [by left|].
    split; [split; [eauto|done]|].
    split; [by intros e s [=]|].
    repeat split; try done; intros; [by apply HsC|by apply HpC].
Qed.

Lemma main_exit_code_witness :
  (main tag_env "database.sqlite" example_cfg []).1 = inr 0%Z
  /\ (main no_server_env "database.sqlite" example_cfg []).1 = inr 1%Z.
Proof.
  split.
  - destruct (main_exit_code tag_env "database.sqlite" example_cfg [])
      as (code & st' & -> & _ & _ & _ & _ & _ & Hzero & _).
    cbn [fst]. f_equal. apply Hzero; [reflexivity|reflexivity|].
    intros s table _. by exists 0.
  - destruct (main_exit_code no_server_env "database.sqlite" example_cfg [])
      as (code & st' & -> & _ & _ & _ & _ & Hone & _).
    cbn [fst]. f_equal.
    apply (Hone "OperationalError: could not connect to server"); reflexivity.
Defined.

(** * Further properties *)

(** ** Column-name mapping and letter case *)

Lemma lower_ascii_idempotent c : lower_ascii (lower_ascii c) = lower_ascii c.
Proof. by destruct c as [[] [] [] [] [] [] [] []]. Qed.

Lemma is_byte_lower_ascii n c :
  (128 <= n)%nat -> is_byte n (lower_ascii c) = is_byte n c.
Proof.
  intros Hn. unfold is_byte.
  assert (nat_of_ascii (lower_ascii c) = nat_of_ascii c
          \/ (nat_of_ascii (lower_ascii c) < 128 /\ nat_of_ascii c < 128))%nat as [->|[H1 H2]].
  { destruct c as [[] [] [] [] [] [] [] []]; vm_compute; (by left) || (right; lia). }
  - done.
  - rewrite !(proj2 (Nat.eqb_neq _ _)) by lia. done.
Qed.

Lemma lower_plain c s :
  starts_capital_i_dot (String c s) = false ->
  starts_kelvin (String c s) = false ->
  lower (String c s) = String (lower_ascii c) (lower s).
Proof.
  intros Hi Hk. destruct s as [|c2 [|c3 s3]]; cbn [lower]; [done| |].
  - cbn in Hi. by rewrite Hi.
  - cbn in Hi, Hk. by rewrite Hi, Hk.
Qed.

Lemma starts_byte_lower n s :
  (128 <= n)%nat -> n <> 196 -> n <> 226 ->
  starts_byte n (lower s) = starts_byte n s.
Proof.
  intros Hn H196 H226. destruct s as [|c1 s1]; [done|].
  destruct (starts_capital_i_dot (String c1 s1)) eqn:Hi.
  { destruct s1 as [|c2 s2]; [done|]. cbn in Hi. cbn [lower]. rewrite Hi.
    apply andb_prop in Hi as [H1 _]. cbn. unfold is_byte in *.
    apply Nat.eqb_eq in H1. rewrite H1.
    rewrite !(proj2 (Nat.eqb_neq _ _)); [done|lia|]. vm_compute. lia. }
  destruct (starts_kelvin (String c1 s1)) eqn:Hk.
  { destruct s1 as [|c2 [|c3 s3]]; [done|done|]. cbn in Hi, Hk. cbn [lower].
    rewrite Hi, Hk. apply andb_prop in Hk as [Hk _]. apply andb_prop in Hk as [H1 _].
    cbn. unfold is_byte in *. apply Nat.eqb_eq in H1. rewrite H1.
    rewrite !(proj2 (Nat.eqb_neq _ _)); [done|lia|]. vm_compute. lia. }
  rewrite (lower_plain _ _ Hi Hk). cbn. by apply is_byte_lower_ascii.
Qed.

Lemma starts_capital_i_dot_shape c s :
  starts_capital_i_dot (String c s) = is_byte 196 c && starts_byte 176 s.
Proof. destruct s; cbn; by rewrite ?andb_false_r. Qed.

Lemma starts_capital_i_dot_lower c s :
  starts_capital_i_dot (String (lower_ascii c) (lower s))
  = starts_capital_i_dot (String c s).
Proof.
  rewrite !starts_capital_i_dot_shape, is_byte_lower_ascii by lia.
  by rewrite starts_byte_lower by lia.
Qed.

Lemma starts_bytes2_lower s :
  starts_bytes2 132 170 (lower s) = starts_bytes2 132 170 s.
Proof.
  destruct s as [|c1 s1]; [done|].
  destruct (is_byte 132 c1) eqn:H1.
  - assert (starts_capital_i_dot (String c1 s1) = false) as Hi.
    { destruct s1; [done|]. cbn. unfold is_byte in *. apply Nat.eqb_eq in H1.
      rewrite H1. done. }
    assert (starts_kelvin (String c1 s1) = false) as Hk.
    { destruct s1 as [|? [|? ?]]; [done|done|]. cbn. unfold is_byte in *.
      apply Nat.eqb_eq in H1. rewrite H1. done. }
    rewrite (lower_plain _ _ Hi Hk). cbn [starts_bytes2].
    rewrite is_byte_lower_ascii by lia. by rewrite starts_byte_lower by lia.
  - assert (starts_byte 132 (lower (String c1 s1)) = false) as Hs
      by (rewrite starts_byte_lower by lia; exact H1).
    cbn [starts_bytes2]. rewrite H1. cbn [andb].
    destruct (lower (String c1 s1)) as [|d r]; [done|].
    cbn [starts_bytes2 starts_byte] in *. by rewrite Hs.
Qed.

Lemma starts_kelvin_lower c s :
  starts_kelvin (String (lower_ascii c) (lower s)) = starts_kelvin (String c s).
Proof.
  assert (forall c s, starts_kelvin (String c s) = is_byte 226 c && starts_bytes2 132 170 s)
    as Hshape.
  { intros c' s'. destruct s' as [|? [|? ?]]; cbn; try by rewrite ?andb_false_r.
    by rewrite andb_assoc. }
  rewrite !Hshape, is_byte_lower_ascii by lia. by rewrite starts_bytes2_lower.
Qed.

Lemma lower_idempotent s : lower (lower s) = lower s.
Proof.
  remember (String.length s) as n eqn:Hn. revert s Hn.
  induction n as [n IH] using lt_wf_ind. intros s Hn.
  destruct s as [|c1 s1]; [done|].
  destruct (starts_capital_i_dot (String c1 s1)) eqn:Hi.
  { destruct s1 as [|c2 s2]; [done|]. cbn in Hi. cbn [lower]. rewrite Hi.
    do 3 (rewrite lower_plain;
      [|first [reflexivity|by destruct (lower s2) as [|? [|? ?]]]
       |first [reflexivity|by destruct (lower s2) as [|? [|? ?]]]]).
    rewrite (IH (String.length s2)); [done| |done]. subst n. simpl. lia. }
  destruct (starts_kelvin (String c1 s1)) eqn:Hk.
  { destruct s1 as [|c2 [|c3 s3]]; [done|done|]. cbn in Hi, Hk. cbn [lower].
    rewrite Hi, Hk.
    rewrite lower_plain;
      [|first [reflexivity|by destruct (lower s3) as [|? [|? ?]]]
       |first [reflexivity|by destruct (lower s3) as [|? [|? ?]]]].
    rewrite (IH (String.length s3)); [done| |done]. subst n. simpl. lia. }
  rewrite (lower_plain _ _ Hi Hk).
  rewrite lower_plain.
  - rewrite lower_ascii_idempotent. rewrite (IH (String.length s1)); [done| |done].
    subst n. simpl. lia.
  - by rewrite starts_capital_i_dot_lower.
  - by rewrite starts_kelvin_lower.
Qed.

(** Each entry of the rename tables differs from its key by letter case
    only. *)
Lemma renames_change_case_only :
  Forall (fun item => Forall (fun kd => lower kd.2 = lower kd.1) item.2)
    COLUMN_MAPPINGS_items.
Proof. apply (bool_decide_unpack _). vm_compute. exact I. Qed.

Lemma map_column_name_lower table c : lower (map_column_name table c) = lower c.
Proof.
  destruct (map_column_name_cases table c) as [->|[ml [Hin Hkd]]]; [done|].
  pose proof renames_change_case_only as HF.
  rewrite Forall_forall in HF. specialize (HF _ Hin). cbn [fst snd] in HF.
  rewrite Forall_forall in HF. specialize (HF _ Hkd). cbn [fst snd] in HF.
  by rewrite HF, lower_idempotent.
Qed.

(** X1. Renaming a column changes the case of letters at most: the
    destination name and the source name are equal once lowercased.  And
    the case of the source name plays no role: when a name is renamed,
    every name with the same lowercase form is renamed to the same
    destination name. *)
Theorem map_column_name_case (table c : string) :
  lower (map_column_name table c) = lower c
  /\ (forall c', lower c' = lower c ->
        map_column_name table c <> c ->
        map_column_name table c' = map_column_name table c).
Proof.
  split; [apply map_column_name_lower|].
  intros c' Hlow. unfold map_column_name. rewrite Hlow.
  destruct (COLUMN_MAPPINGS !! table) as [m|]; [|done].
  by destruct (m !! lower c).
Qed.

Lemma map_column_name_case_witness :
  map_column_name "user" "MFAEnabled" = map_column_name "user" "mfaenabled"
  /\ map_column_name "user_api_keys" ("api" ++ kelvin_sign ++ "ey")
     = map_column_name "user_api_keys" "apikey".
Proof.
  split.
  - apply (proj2 (map_column_name_case "user" "mfaenabled") "MFAEnabled").
    + reflexivity.
    + vm_compute. discriminate.
  - apply (proj2 (map_column_name_case "user_api_keys" "apikey")
             ("api" ++ kelvin_sign ++ "ey")).
    + vm_compute. reflexivity.
    + vm_compute. discriminate.
Defined.

(** X2. The rename map is consulted with a lowercased name, so an entry
    whose key has a capital letter is met by no column name, and the
    mapping is the same with the entry deleted.  [latestEvent] of
    [workflow_statistics] and [waitTill] of [execution_entity] are such
    entries. *)
Theorem capital_keys_unreachable (table k d : string) (m : gmap string string) :
  COLUMN_MAPPINGS !! table = Some m ->
  m !! k = Some d ->
  lower k <> k ->
  forall c,
    lower c <> k
    /\ map_column_name table c = default c (delete k m !! lower c).
Proof.
  intros Hm Hk Hcap c.
  assert (lower c <> k) as Hne.
  { intros <-. apply Hcap. apply lower_idempotent. }
  split; [done|].
  unfold map_column_name. rewrite Hm. by rewrite lookup_delete_ne.
Qed.

Lemma capital_keys_unreachable_witness :
  let m : gmap string string :=
    list_to_map [ ("workflowid", "workflowId");
                  ("latestEvent", "latestEvent");
                  ("rootcount", "rootCount") ] in
  let c := "wor" ++ kelvin_sign ++ "flowid" in
  (lower "LatestEvent" <> "latestEvent"
   /\ map_column_name "workflow_statistics" "LatestEvent"
      = default "LatestEvent" (delete "latestEvent" m !! lower "LatestEvent"))
  /\ (lower c <> "latestEvent"
      /\ map_column_name "workflow_statistics" c
         = default c (delete "latestEvent" m !! lower c)).
Proof.
  split.
  - apply (capital_keys_unreachable "workflow_statistics" "latestEvent" "latestEvent").
    + vm_compute. reflexivity.
    + vm_compute. reflexivity.
    + vm_compute. discriminate.
  - apply (capital_keys_unreachable "workflow_statistics" "latestEvent" "latestEvent").
    + vm_compute. reflexivity.
    + vm_compute. reflexivity.
    + vm_compute. discriminate.
Defined.

(** ** The mapping of a row *)

Lemma dict_set_fresh {V} k (v : V) d :
  k ∉ dict_keys d -> dict_set k v d = (d ++ [(k, v)])%list.
Proof.
  unfold dict_keys. induction d as [|[k' v'] d IH]; simpl; intros Hnot; [done|].
  apply not_elem_of_cons in Hnot as [Hne Hnot].
  destruct (String.eqb_spec k' k) as [->|_]; [done|]. by rewrite IH.
Qed.

Lemma dict_keys_set_present {V} k (v : V) d :
  k ∈ dict_keys d -> dict_keys (dict_set k v d) = dict_keys d.
Proof.
  unfold dict_keys. induction d as [|[k' v'] d IH]; intros Hin.
  - by apply elem_of_nil in Hin.
  - cbn [dict_set]. destruct (String.eqb_spec k' k) as [->|Hne]; [done|].
    rewrite !fmap_cons. f_equal. apply IH.
    rewrite fmap_cons in Hin. apply elem_of_cons in Hin as [->|?]; done.
Qed.

Lemma dict_keys_set {V} k (v : V) d :
  dict_keys (dict_set k v d)
  = if bool_decide (k ∈ dict_keys d) then dict_keys d else (dict_keys d ++ [k])%list.
Proof.
  case_bool_decide as Hin; [by apply dict_keys_set_present|].
  rewrite (dict_set_fresh _ _ _ Hin). unfold dict_keys. by rewrite fmap_app.
Qed.

Lemma dict_set_NoDup {V} k (v : V) d :
  NoDup (dict_keys d) -> NoDup (dict_keys (dict_set k v d)).
Proof.
  intros Hnd. rewrite dict_keys_set. case_bool_decide as Hin; [done|].
  apply NoDup_app. split; [done|]. split; [|apply NoDup_singleton].
  intros x Hx ->%list_elem_of_singleton. done.
Qed.

Lemma map_exn_ext {A B} (f g : A -> Exn + B) xs :
  (forall x, x ∈ xs -> f x = g x) -> map_exn f xs = map_exn g xs.
Proof.
  induction xs as [|x xs IH]; intros Heq; simpl; [done|].
  rewrite (Heq x) by (by left). rewrite IH; [done|].
  intros y Hy. apply Heq. by right.
Qed.

(** [[d[k] for k in d.keys()]] is the list of the values of [d]. *)
Lemma dict_values_NoDup {V} (d : list (string * V)) :
  NoDup (dict_keys d) -> map_exn (dict_getitem d) (dict_keys d) = inr (d.*2).
Proof.
  unfold dict_keys. induction d as [|[k v] d IH]; intros Hnd; [done|].
  rewrite !fmap_cons in *. cbn [fst snd] in *.
  apply NoDup_cons in Hnd as [Hnot Hnd]. cbn [map_exn].
  assert (dict_getitem ((k, v) :: d) k = inr v) as ->.
  { unfold dict_getitem. simpl. by rewrite String.eqb_refl. }
  rewrite (map_exn_ext (dict_getitem ((k, v) :: d)) (dict_getitem d)).
  - by rewrite (IH Hnd).
  - intros x Hx. unfold dict_getitem. simpl.
    destruct (String.eqb_spec k x) as [->|_]; done.
Qed.

Section TransformMore.

Context (env : Env) (table_name : string) (pg_columns : list string) (row : Row).

Let field := transform_field env table_name pg_columns row.

Lemma transform_fields_keys keys data data' :
  fold_exn field keys data = inr data' ->
  NoDup (dict_keys data) ->
  NoDup (dict_keys data')
  /\ (forall c, c ∈ dict_keys data' ->
        c ∈ dict_keys data
        \/ (c ∈ pg_columns /\ exists key, key ∈ keys /\ map_column_name table_name key = c))
  /\ length data' <= length data + length keys.
Proof.
  revert data. induction keys as [|key keys IH]; intros data Hfold Hnd; simpl in Hfold.
  - injection Hfold as <-. split; [done|]. split; [by left|]. simpl. lia.
  - destruct (field data key) as [e|d1] eqn:Hf; [done|].
    unfold field, transform_field in Hf.
    case_bool_decide as Hin.
    + destruct (row_getitem row key) as [e|value]; [done|]. injection Hf as <-.
      destruct (IH _ Hfold) as (Hnd' & Hsrc & Hlen); [by apply dict_set_NoDup|].
      split; [done|]. split.
      * intros c Hc. destruct (Hsrc c Hc) as [Hold|(Hcol & k & Hk & Hmap)].
        -- rewrite dict_keys_set in Hold. case_bool_decide; [by left|].
           apply elem_of_app in Hold as [?| ->%list_elem_of_singleton]; [by left|].
           right. split; [done|]. exists key. split; [by left|done].
        -- right. split; [done|]. exists k. split; [by right|done].
      * assert (length (dict_set (map_column_name table_name key)
                          (convert_value env (map_column_name table_name key) value) data)
                <= S (length data)) as Hset.
        { rewrite <- !(length_fmap fst). fold (dict_keys data).
          change (fmap fst ?d) with (dict_keys d). rewrite dict_keys_set.
          case_bool_decide; [lia|]. rewrite length_app. simpl. lia. }
        simpl. lia.
    + injection Hf as <-. destruct (IH _ Hfold Hnd) as (Hnd' & Hsrc & Hlen).
      split; [done|]. split.
      * intros c Hc. destruct (Hsrc c Hc) as [?|(Hcol & k & Hk & Hmap)]; [by left|].
        right. split; [done|]. exists k. split; [by right|done].
      * simpl. lia.
Qed.

(** X3. The mapping built for a row names each destination column at most
    once; every column it names is a column of the destination table and
    the image of a column of the row; and it has no more entries than the
    row has cells. *)
Theorem transform_row_columns :
  exists data,
    transform_row env table_name pg_columns row = inr data
    /\ NoDup (dict_keys data)
    /\ (forall c, c ∈ dict_keys data ->
          c ∈ pg_columns
          /\ exists key, key ∈ row_keys row /\ map_column_name table_name key = c)
    /\ length data <= length row.
Proof.
  destruct (transform_row_ok env table_name pg_columns row) as [data Hdata].
  exists data. split; [done|].
  destruct (transform_fields_keys (row_keys row) [] data Hdata) as (Hnd & Hsrc & Hlen);
    [apply NoDup_nil_2|].
  split; [done|]. split.
  - intros c Hc. destruct (Hsrc c Hc) as [Hnil|?]; [|done].
    by apply elem_of_nil in Hnil.
  - unfold row_keys in Hlen. rewrite length_fmap in Hlen. simpl in Hlen. lia.
Qed.

(** X4. The VALUES list of the INSERT is the list of the values of the
    mapping, in the order of its columns: the statement pairs each column
    with the value stored under it. *)
Theorem insert_values_match_columns :
  exists data,
    transform_row env table_name pg_columns row = inr data
    /\ map_exn (dict_getitem data) (dict_keys data) = inr (data.*2)
    /\ zip (dict_keys data) (data.*2) = data.
Proof.
  destruct (transform_row_ok env table_name pg_columns row) as [data Hdata].
  destruct (transform_fields_keys (row_keys row) [] data Hdata) as (Hnd & _);
    [apply NoDup_nil_2|].
  exists data. split; [done|]. split; [by apply dict_values_NoDup|].
  apply zip_fst_snd.
Qed.

End TransformMore.

(** ** Rows whose column names differ beyond letter case *)

Lemma equal_ignore_case_lower a b : equal_ignore_case a b = true -> lower a = lower b.
Proof.
  unfold equal_ignore_case.
  intros [Heq|Hci]%orb_prop.
  - by apply String.eqb_eq in Heq as ->.
  - apply andb_prop in Hci as [_ Hci]. by apply String.eqb_eq in Hci.
Qed.

(** With names that differ beyond letter case, as SQLite has them within
    one table, [row[key]] is the cell stored under [key]. *)
Lemma row_getitem_own (row : Row) key value :
  NoDup (lower <$> row_keys row) -> (key, value) ∈ row ->
  row_getitem row key = inr value.
Proof.
  unfold row_keys. induction row as [|[name x] row IH]; intros Hnd Hin.
  - by apply elem_of_nil in Hin.
  - rewrite !fmap_cons in Hnd. cbn [fst] in Hnd.
    apply NoDup_cons in Hnd as [Hnot Hnd]. cbn [row_getitem].
    apply elem_of_cons in Hin as [[= -> ->]|Hin].
    + by rewrite equal_ignore_case_refl.
    + destruct (equal_ignore_case key name) eqn:E; [|by apply IH].
      exfalso. apply Hnot. apply equal_ignore_case_lower in E. rewrite <- E.
      apply list_elem_of_fmap. exists key. split; [done|].
      apply list_elem_of_fmap. by exists (key, value).
Qed.

Lemma expected_data_keys env table_name pg_columns (row : Row) c :
  c ∈ dict_keys (expected_data env table_name pg_columns row) ->
  exists key, key ∈ row_keys row /\ map_column_name table_name key = c.
Proof.
  unfold dict_keys, expected_data, row_keys.
  intros [[c' v] [-> Hin]]%list_elem_of_fmap.
  apply list_elem_of_omap in Hin as [[key x] [Hin Hcell]].
  unfold expected_cell in Hcell. cbn [fst snd] in Hcell.
  case_bool_decide; [|discriminate Hcell].
  assert (c' = map_column_name table_name key) as -> by congruence.
  exists key. split; [|reflexivity]. apply list_elem_of_fmap.
  exists (key, x). split; [reflexivity|exact Hin].
Qed.

Lemma transform_fields_expected env table_name pg_columns (row pre suf : Row) :
  row = (pre ++ suf)%list ->
  NoDup (lower <$> row_keys row) ->
  fold_exn (transform_field env table_name pg_columns row) (row_keys suf)
    (expected_data env table_name pg_columns pre)
  = inr (expected_data env table_name pg_columns row).
Proof.
  revert pre. induction suf as [|[key value] suf IH]; intros pre Hrow Hnd.
  - rewrite app_nil_r in Hrow. by subst.
  - unfold row_keys. rewrite fmap_cons. cbn [fst fold_exn].
    assert (row = ((pre ++ [(key, value)]) ++ suf)%list) as Hrow'
      by (by rewrite <- app_assoc).
    assert (expected_data env table_name pg_columns (pre ++ [(key, value)])%list
            = (expected_data env table_name pg_columns pre
               ++ from_option (fun cell => [cell]) []
                    (expected_cell env table_name pg_columns (key, value)))%list)
      as Hexp.
    { unfold expected_data. by rewrite omap_app. }
    unfold transform_field at 1. unfold expected_cell in Hexp. cbn [fst snd] in Hexp.
    case_bool_decide as Hcol.
    + rewrite (row_getitem_own row key value Hnd)
        by (rewrite Hrow; apply elem_of_app; right; by left).
      rewrite dict_set_fresh.
      * simpl in Hexp. rewrite <- Hexp. by apply IH.
      * intros [k' [Hk' Hmap]]%expected_data_keys.
        assert (lower k' = lower key) as Hlow
          by (by rewrite <- (map_column_name_lower table_name k'), Hmap,
                map_column_name_lower).
        rewrite Hrow in Hnd. unfold row_keys in Hnd.
        rewrite !fmap_app in Hnd. apply NoDup_app in Hnd as (_ & Hdisj & _).
        apply (Hdisj (lower key)).
        -- rewrite <- Hlow. apply list_elem_of_fmap.
           exists k'. split; [reflexivity|exact Hk'].
        -- rewrite !fmap_cons. by left.
    + simpl in Hexp. rewrite app_nil_r in Hexp. rewrite <- Hexp. by apply IH.
Qed.

(** X5. For a row whose column names differ beyond letter case, the
    mapping has one entry per cell whose renamed column exists in the
    destination table, in the order of the row, holding the converted
    cell; the other cells are dropped. *)
Theorem transform_row_expected (env : Env) (table_name : string)
    (pg_columns : list string) (row : Row) :
  NoDup (lower <$> row_keys row) ->
  transform_row env table_name pg_columns row
  = inr (expected_data env table_name pg_columns row).
Proof.
  intros Hnd. unfold transform_row.
  by apply (transform_fields_expected env table_name pg_columns row [] row).
Qed.

Lemma transform_row_expected_witness :
  transform_row example_env "workflow_entity" ["nodes"; "active"; "id"] workflow_row
  = inr [ ("id", VInt 7); ("active", VBool false); ("nodes", VStr "[{]") ]
  /\ transform_row example_env "user_api_keys" ["id"; "apiKey"]
       [ ("id", VInt 1); ("api" ++ kelvin_sign ++ "ey", VStr "n8n_api_1") ]
     = inr [ ("id", VInt 1); ("apiKey", VStr "n8n_api_1") ].
Proof.
  split.
  - rewrite (transform_row_expected example_env "workflow_entity"
               ["nodes"; "active"; "id"] workflow_row).
    + vm_compute. reflexivity.
    + apply (bool_decide_unpack _). vm_compute. exact I.
  - rewrite (transform_row_expected example_env "user_api_keys" ["id"; "apiKey"]
               [ ("id", VInt 1); ("api" ++ kelvin_sign ++ "ey", VStr "n8n_api_1") ]).
    + vm_compute. reflexivity.
    + apply (bool_decide_unpack _). vm_compute. exact I.
Defined.

(** ** The row loop, exactly *)

Lemma row_data_transform env table_name pg_columns row :
  transform_row env table_name pg_columns row
  = inr (row_data env table_name pg_columns row).
Proof.
  unfold row_data.
  by destruct (transform_row_ok env table_name pg_columns row) as [data ->].
Qed.

Lemma row_data_NoDup env table_name pg_columns row :
  NoDup (dict_keys (row_data env table_name pg_columns row)).
Proof.
  pose proof (row_data_transform env table_name pg_columns row) as Hdata.
  destruct (transform_fields_keys env table_name pg_columns row (row_keys row) [] _ Hdata)
    as (Hnd & _); [apply NoDup_nil_2|done].
Qed.

Lemma row_data_no_columns env table_name row : row_data env table_name [] row = [].
Proof.
  pose proof (row_data_transform env table_name [] row) as Hdata.
  destruct (transform_fields_keys env table_name [] row (row_keys row) [] _ Hdata)
    as (_ & Hsrc & _); [apply NoDup_nil_2|].
  destruct (row_data env table_name [] row) as [|[c v] data]; [done|].
  destruct (Hsrc c) as [Hin|[Hin _]]; [by left| |]; by apply elem_of_nil in Hin.
Qed.

(** What one pass of the row loop does, as a function of the mapping of
    the row and of the answer of the destination. *)
Lemma migrate_row_exact env table_name pg_columns inserted skipped row st :
  let data := row_data env table_name pg_columns row in
  let sch := schema (pg_config st) in
  let st1 := emit (PgExecute (PgInsert sch table_name (dict_keys data) (data.*2))) st in
  migrate_row env table_name pg_columns (inserted, skipped) row st
  = if bool_decide (data = []) then (inr (inserted, S skipped), st)
    else match pg_insert_outcome env st sch table_name data with
         | Stored =>
             (inr (S inserted, skipped),
              set_pg (pg_pending st ++ [(table_name, data)]) (pg_committed st) st1)
         | Conflict => (inr (S inserted, skipped), st1)
         | Failed e =>
             (inr (inserted, S skipped),
              set_pg [] (pg_committed st)
                (emit PgRollback
                   (emit (Stdout (LValues (take 3 (data.*2))))
                      (emit (Stdout (LColumns (dict_keys data)))
                         (emit (Stdout (LInsertError e)) st1)))))
         end.
Proof.
  intros data sch st1.
  destruct (migrate_row_cases env table_name pg_columns inserted skipped row st)
    as [data' [Hdata' Hcases]].
  assert (data' = data) as ->.
  { pose proof (row_data_transform env table_name pg_columns row) as Hrow.
    fold data in Hrow. congruence. }
  destruct Hcases as [[Hnil Heq]|[Hne [values [Hvalues [_ Heq]]]]].
  - by rewrite bool_decide_eq_true_2.
  - rewrite bool_decide_eq_false_2 by done.
    rewrite (dict_values_NoDup data (row_data_NoDup env table_name pg_columns row))
      in Hvalues.
    injection Hvalues as <-. cbn zeta in Heq.
    replace (zip (dict_keys data) (data.*2)) with data in Heq
      by (symmetry; apply zip_fst_snd).
    exact Heq.
Qed.

Lemma inserts_app (tr1 tr2 : list Event) :
  inserts (tr1 ++ tr2) = (inserts tr1 ++ inserts tr2)%list.
Proof. apply omap_app. Qed.

Lemma sent_data_cons env table_name pg_columns row rows :
  sent_data env table_name pg_columns (row :: rows)
  = if bool_decide (row_data env table_name pg_columns row = [])
    then sent_data env table_name pg_columns rows
    else row_data env table_name pg_columns row
         :: sent_data env table_name pg_columns rows.
Proof.
  unfold sent_data. rewrite fmap_cons, filter_cons.
  case_bool_decide; case_decide; done.
Qed.

(** The loop as a whole: it returns; it commits nothing; the open
    transaction grows by at most one row per insert counted, all of this
    table; and the INSERT statements it executes are those of the
    non-empty mappings, one each, in the order of the rows. *)
Lemma migrate_rows_exact env table_name pg_columns rows inserted skipped st :
  exists inserted' skipped' st',
    for_each (migrate_row env table_name pg_columns) rows (inserted, skipped) st
    = (inr (inserted', skipped'), st')
    /\ pg_config st' = pg_config st
    /\ pg_committed st' = pg_committed st
    /\ length (pg_pending st') + inserted <= length (pg_pending st) + inserted'
    /\ (forall r, r ∈ pg_pending st' -> r ∈ pg_pending st \/ r.1 = table_name)
    /\ inserts (trace st')
       = (inserts (trace st)
          ++ (insert_for (schema (pg_config st)) table_name
                <$> sent_data env table_name pg_columns rows))%list.
Proof.
  revert inserted skipped st.
  induction rows as [|row rows IH]; intros inserted skipped st; cbn [for_each].
  - exists inserted, skipped, st. repeat split; try done; [by left|].
    by rewrite app_nil_r.
  - unfold bind. rewrite migrate_row_exact, sent_data_cons.
    set (data := row_data env table_name pg_columns row).
    case_bool_decide as Hempty.
    { destruct (IH inserted (S skipped) st) as (i' & s' & st' & -> & ? & ? & ? & ? & ?).
      by exists i', s', st'. }
    destruct (pg_insert_outcome env st _ table_name data) as [| |e].
    + match goal with |- context [for_each _ rows ?acc ?s] =>
        destruct (IH (S inserted) skipped s)
          as (i' & s' & st' & -> & Hcfg & Hcom & Hlen & Hrows & Hins) end.
      exists i', s', st'. split; [done|]. split; [done|]. split; [done|].
      cbn [pg_pending pg_config trace set_pg emit] in *.
      split; [rewrite length_app in Hlen; simpl in Hlen; lia|].
      split.
      * intros r Hr. destruct (Hrows r Hr) as [Hin|?]; [|by right].
        apply elem_of_app in Hin as [?| ->%list_elem_of_singleton]; [by left|by right].
      * rewrite Hins, inserts_app, fmap_cons, <- app_assoc. done.
    + match goal with |- context [for_each _ rows ?acc ?s] =>
        destruct (IH (S inserted) skipped s)
          as (i' & s' & st' & -> & Hcfg & Hcom & Hlen & Hrows & Hins) end.
      exists i', s', st'. split; [done|]. split; [done|]. split; [done|].
      cbn [pg_pending pg_config trace set_pg emit] in *.
      split; [lia|]. split; [done|].
      rewrite Hins, inserts_app, fmap_cons, <- app_assoc. done.
    + match goal with |- context [for_each _ rows ?acc ?s] =>
        destruct (IH inserted (S skipped) s)
          as (i' & s' & st' & -> & Hcfg & Hcom & Hlen & Hrows & Hins) end.
      exists i', s', st'. split; [done|]. split; [done|]. split; [done|].
      cbn [pg_pending pg_config trace set_pg emit] in *.
      split; [simpl in Hlen; lia|]. split.
      * intros r Hr. destruct (Hrows r Hr) as [Hin|?]; [|by right].
        by apply elem_of_nil in Hin.
      * rewrite Hins, !inserts_app, fmap_cons, <- !app_assoc. done.
Qed.

(** ** The statements under [try:], exactly *)

Lemma migrate_table_try_exact env table_name st :
  migrate_table_try env table_name st
  = match pg_columns_of env st (schema (pg_config st)) table_name with
    | inl e =>
        (inl e, emit (PgExecute (PgSelectColumns (schema (pg_config st)) table_name)) st)
    | inr pg_columns =>
        if bool_decide (pg_columns = []) then
          (inr (0, 0), emit (Stdout (LTableNotFound table_name)) (after_columns table_name st))
        else
          match sqlite_tables env !! table_name with
          | None =>
              (inl ("OperationalError: no such table: " ++ table_name),
               emit (SqliteExecute (SqliteCount table_name)) (after_columns table_name st))
          | Some rows =>
              if bool_decide (rows = []) then
                (inr (0, 0),
                 emit (Stdout (LTableEmpty table_name))
                   (emit SqliteFetchone
                      (emit (SqliteExecute (SqliteCount table_name))
                         (after_columns table_name st))))
              else
                match for_each (migrate_row env table_name pg_columns) rows (0, 0)
                        (before_rows table_name (length rows) st) with
                | (inr c, st2) =>
                    match pg_commit_error env st2 with
                    | None => (inr c, emit (Stdout (LMigrated c.1 c.2)) (after_commit st2))
                    | Some e => (inl e, emit PgCommit st2)
                    end
                | (inl e, st2) => (inl e, st2)
                end
          end
    end.
Proof.
  unfold migrate_table_try, get_table_columns, sqlite_count, sqlite_select_all,
    sqlite_query, pg_commit, print, ret, bind.
  destruct (pg_columns_of env st _ table_name) as [e|pg_columns]; [done|].
  case_bool_decide; [done|].
  destruct (sqlite_tables env !! table_name) as [rows|]; [|done].
  destruct rows as [|row rows].
  { rewrite bool_decide_eq_true_2 by done. by rewrite bool_decide_eq_true_2. }
  rewrite bool_decide_eq_false_2 by done. rewrite bool_decide_eq_false_2 by done.
  fold (before_rows table_name (length (row :: rows)) st).
  destruct (for_each _ _ _ _) as [[e|c] st2]; [done|].
  by destruct (pg_commit_error env st2).
Qed.

Lemma sent_data_length env table_name pg_columns rows :
  length (sent_data env table_name pg_columns rows) <= length rows.
Proof.
  unfold sent_data. etrans; [apply length_filter|]. by rewrite length_fmap.
Qed.

Lemma sent_data_no_columns env table_name rows : sent_data env table_name [] rows = [].
Proof.
  induction rows as [|row rows IH]; [done|].
  rewrite sent_data_cons, row_data_no_columns. by rewrite bool_decide_eq_true_2.
Qed.

(** The loop when the destination gives the same answer, not a failure, to
    every INSERT. *)
Lemma migrate_rows_uniform env table_name pg_columns rows inserted skipped st outcome :
  (forall s data,
      pg_insert_outcome env s (schema (pg_config st)) table_name data = outcome) ->
  (forall e, outcome <> Failed e) ->
  let sent := sent_data env table_name pg_columns rows in
  exists st',
    for_each (migrate_row env table_name pg_columns) rows (inserted, skipped) st
    = (inr (inserted + length sent, skipped + (length rows - length sent)), st')
    /\ pg_config st' = pg_config st
    /\ pg_committed st' = pg_committed st
    /\ pg_pending st'
       = (pg_pending st
          ++ match outcome with
             | Stored => (fun data => (table_name, data)) <$> sent
             | _ => []
             end)%list.
Proof.
  intros Hout Hok. cbn zeta. revert inserted skipped st Hout.
  induction rows as [|row rows IH]; intros inserted skipped st Hout; cbn [for_each].
  - exists st. rewrite !Nat.add_0_r. repeat split; try done.
    destruct outcome; by rewrite app_nil_r.
  - unfold bind. rewrite migrate_row_exact, sent_data_cons.
    pose proof (sent_data_length env table_name pg_columns rows) as Hlen.
    set (data := row_data env table_name pg_columns row).
    set (sent := sent_data env table_name pg_columns rows) in *.
    case_bool_decide as Hempty.
    { destruct (IH inserted (S skipped) st Hout) as (st' & -> & ? & ? & ?).
      exists st'. split; [|done]. do 3 f_equal. cbn [length]. lia. }
    rewrite Hout. destruct outcome as [| |e]; [| |by destruct (Hok e)].
    + match goal with |- context [for_each _ rows ?acc ?s] =>
        destruct (IH (S inserted) skipped s) as (st' & -> & Hcfg & Hcom & Hpen);
          [exact Hout|] end.
      exists st'. split; [do 3 f_equal; cbn [length]; lia|].
      split; [done|]. split; [done|].
      rewrite Hpen. cbn [pg_pending set_pg]. by rewrite fmap_cons, <- app_assoc.
    + match goal with |- context [for_each _ rows ?acc ?s] =>
        destruct (IH (S inserted) skipped s) as (st' & -> & Hcfg & Hcom & Hpen);
          [exact Hout|] end.
      exists st'. split; [do 3 f_equal; cbn [length]; lia|].
      by repeat split.
Qed.

(** ** One table: what is sent, what is stored *)

Lemma inserts_emit e st :
  inserts (trace (emit e st))
  = (inserts (trace st) ++ from_option (fun i => [i]) [] (insert_of e))%list.
Proof. cbn [trace emit]. by rewrite inserts_app. Qed.

(** A call of [migrate_table], as far as the transaction goes. *)
Lemma migrate_table_pg env table_name st :
  connected st ->
  pg_pending st = [] ->
  exists c st' added,
    migrate_table env table_name st = (inr c, st')
    /\ pg_pending st' = []
    /\ pg_committed st' = (pg_committed st ++ added)%list
    /\ length added <= c.1
    /\ Forall (fun r => r.1 = table_name) added.
Proof.
  intros Hconn Hpend.
  rewrite (migrate_table_unfold _ _ _ Hconn), migrate_table_try_exact.
  destruct (pg_columns_of env _ _ table_name) as [e|pg_columns].
  { eexists _, _, []. split; [done|]. cbn. rewrite app_nil_r. by repeat split. }
  case_bool_decide.
  { eexists _, _, []. split; [done|]. cbn. rewrite app_nil_r. by repeat split. }
  destruct (sqlite_tables env !! table_name) as [rows|].
  2:{ eexists _, _, []. split; [done|]. cbn. rewrite app_nil_r. by repeat split. }
  case_bool_decide.
  { eexists _, _, []. split; [done|]. cbn. rewrite app_nil_r. by repeat split. }
  destruct (migrate_rows_exact env table_name pg_columns rows 0 0
              (before_rows table_name (length rows) (after_banner table_name st)))
    as (i & s & st2 & -> & _ & Hcom & Hlen & Hrows & _).
  change (pg_pending (before_rows _ _ _)) with (pg_pending st) in Hlen, Hrows.
  change (pg_committed (before_rows _ _ _)) with (pg_committed st) in Hcom.
  rewrite Hpend in Hlen, Hrows. simpl in Hlen.
  destruct (pg_commit_error env st2) as [e|].
  - eexists _, _, []. split; [done|]. cbn. rewrite app_nil_r, Hcom.
    repeat split; [lia|done].
  - exists (i, s), (close_cursors (emit (Stdout (LMigrated i s)) (after_commit st2))),
      (pg_pending st2).
    split; [done|]. cbn. rewrite Hcom. repeat split; [lia|].
    apply Forall_forall. intros r Hr. destruct (Hrows r Hr) as [Hnil|?]; [|done].
    by apply elem_of_nil in Hnil.
Qed.



(** X8. When the destination stores every row it is sent and the commit
    succeeds, [migrate_table], called without an open transaction on a
    table that has columns in the destination, commits the non-empty
    mappings of the source rows, all of them and in the order of the rows,
    after what the destination held; it returns their number as inserted
    and the number of the other rows as skipped. *)
Theorem migrate_table_all_stored (env : Env) (table_name : string)
    (pg_columns : list string) (rows : list Row) (st : State) :
  connected st ->
  pg_pending st = [] ->
  pg_columns_of env (after_banner table_name st) (schema (pg_config st)) table_name
  = inr pg_columns ->
  pg_columns <> [] ->
  sqlite_tables env !! table_name = Some rows ->
  (forall s data,
      pg_insert_outcome env s (schema (pg_config st)) table_name data = Stored) ->
  (forall s, pg_commit_error env s = None) ->
  let sent := sent_data env table_name pg_columns rows in
  exists st',
    migrate_table env table_name st
    = (inr (length sent, length rows - length sent), st')
    /\ pg_pending st' = []
    /\ pg_committed st'
       = (pg_committed st ++ ((fun data => (table_name, data)) <$> sent))%list.
Proof.
  intros Hconn Hpend Hcols Hne Hrows Hstored Hcommit sent.
  rewrite (migrate_table_unfold _ _ _ Hconn), migrate_table_try_exact.
  change (schema (pg_config (after_banner table_name st))) with (schema (pg_config st)).
  rewrite Hcols, Hrows. rewrite bool_decide_eq_false_2 by done.
  case_bool_decide as Hempty.
  { subst rows. eexists. split; [done|]. cbn. by rewrite app_nil_r. }
  destruct (migrate_rows_uniform env table_name pg_columns rows 0 0
              (before_rows table_name (length rows) (after_banner table_name st))
              Stored) as (st2 & -> & _ & Hcom & Hpen); [exact Hstored|done|].
  rewrite Hcommit. eexists. split; [done|]. cbn.
  rewrite Hcom, Hpen. cbn. by rewrite Hpend.
Qed.

Lemma migrate_table_all_stored_witness :
  let sent := sent_data example_env "workflow_entity" ["id"; "name"; "active"; "nodes"]
                [workflow_row] in
  exists st',
    migrate_table example_env "workflow_entity" connected_state
    = (inr (length sent, length [workflow_row] - length sent), st')
    /\ pg_pending st' = []
    /\ pg_committed st'
       = (pg_committed connected_state
          ++ ((fun data => ("workflow_entity", data)) <$> sent))%list.
Proof.
  apply (migrate_table_all_stored example_env "workflow_entity"
           ["id"; "name"; "active"; "nodes"] [workflow_row] connected_state).
  - split; reflexivity.
  - reflexivity.
  - vm_compute. reflexivity.
  - discriminate.
  - vm_compute. reflexivity.
  - reflexivity.
  - reflexivity.
Defined.

(** X9. When every INSERT meets a conflict (the rows are in the
    destination already), [migrate_table] still counts each row that was
    sent as inserted, and commits nothing: the insert count says how many
    statements returned, not how many rows were stored. *)
Theorem migrate_table_all_conflict (env : Env) (table_name : string)
    (pg_columns : list string) (rows : list Row) (st : State) :
  connected st ->
  pg_pending st = [] ->
  pg_columns_of env (after_banner table_name st) (schema (pg_config st)) table_name
  = inr pg_columns ->
  pg_columns <> [] ->
  sqlite_tables env !! table_name = Some rows ->
  (forall s data,
      pg_insert_outcome env s (schema (pg_config st)) table_name data = Conflict) ->
  (forall s, pg_commit_error env s = None) ->
  let sent := sent_data env table_name pg_columns rows in
  exists st',
    migrate_table env table_name st
    = (inr (length sent, length rows - length sent), st')
    /\ pg_pending st' = []
    /\ pg_committed st' = pg_committed st.
Proof.
  intros Hconn Hpend Hcols Hne Hrows Hconflict Hcommit sent.
  rewrite (migrate_table_unfold _ _ _ Hconn), migrate_table_try_exact.
  change (schema (pg_config (after_banner table_name st))) with (schema (pg_config st)).
  rewrite Hcols, Hrows. rewrite bool_decide_eq_false_2 by done.
  case_bool_decide as Hempty.
  { subst rows. eexists. split; [done|]. by cbn. }
  destruct (migrate_rows_uniform env table_name pg_columns rows 0 0
              (before_rows table_name (length rows) (after_banner table_name st))
              Conflict) as (st2 & -> & _ & Hcom & Hpen); [exact Hconflict|done|].
  rewrite Hcommit. eexists. split; [done|]. cbn.
  rewrite Hcom, Hpen. cbn. by rewrite Hpend, !app_nil_r.
Qed.

Lemma migrate_table_all_conflict_witness :
  let sent := sent_data rerun_env "tag_entity" tag_columns [tag_row_1; tag_row_2] in
  exists st',
    migrate_table rerun_env "tag_entity" connected_state
    = (inr (length sent, length [tag_row_1; tag_row_2] - length sent), st')
    /\ pg_pending st' = []
    /\ pg_committed st' = pg_committed connected_state.
Proof.
  apply (migrate_table_all_conflict rerun_env "tag_entity" tag_columns
           [tag_row_1; tag_row_2] connected_state).
  - split; reflexivity.
  - reflexivity.
  - vm_compute. reflexivity.
  - discriminate.
  - vm_compute. reflexivity.
  - reflexivity.
  - reflexivity.
Defined.

Lemma emit_mkState e path cfg sc pc sts pending committed tr :
  emit e (mkState path cfg sc pc sts pending committed tr)
  = mkState path cfg sc pc sts pending committed (tr ++ [e]).
Proof. reflexivity. Qed.

Lemma set_pg_mkState pending' committed' path cfg sc pc sts pending committed tr :
  set_pg pending' committed' (mkState path cfg sc pc sts pending committed tr)
  = mkState path cfg sc pc sts pending' committed' tr.
Proof. reflexivity. Qed.

(** X10. On a connected migrator, when the destination has the table and
    the source does not, the count query raises: [migrate_table] prints
    the table-level error, rolls the connection back, so that an open
    transaction is discarded, and returns (0, 0) with the committed rows
    untouched; no row is selected and no INSERT is sent. *)
Theorem missing_source_table (env : Env) (table_name : string)
    (pg_columns : list string) (st : State) :
  connected st ->
  pg_columns_of env (after_banner table_name st) (schema (pg_config st)) table_name
  = inr pg_columns ->
  pg_columns <> [] ->
  sqlite_tables env !! table_name = None ->
  let e := "OperationalError: no such table: " ++ table_name in
  let new :=
    [ Stdout LRule; Stdout (LMigratingTable table_name); Stdout LRule;
      PgExecute (PgSelectColumns (schema (pg_config st)) table_name); PgFetchall;
      SqliteExecute (SqliteCount table_name);
      Stdout (LTableError table_name e); PgRollback;
      SqliteCursorClose; PgCursorClose ] in
  migrate_table env table_name st
  = (inr (0, 0),
     mkState (sqlite_path st) (pg_config st) (sqlite_conn st) (pg_conn st)
       (stats st) [] (pg_committed st) (trace st ++ new)).
Proof.
  intros Hconn Hcols Hne Hrows e new.
  rewrite (migrate_table_unfold _ _ _ Hconn), migrate_table_try_exact.
  change (schema (pg_config (after_banner table_name st))) with (schema (pg_config st)).
  rewrite Hcols, Hrows. rewrite bool_decide_eq_false_2 by done.
  destruct st as [path cfg sc pc sts pending committed tr].
  unfold close_cursors, after_table_error, after_columns, after_banner.
  cbn [pg_config pg_committed].
  repeat first [rewrite emit_mkState | rewrite set_pg_mkState].
  cbn [sqlite_path pg_config sqlite_conn pg_conn stats pg_pending pg_committed trace].
  by rewrite <- !app_assoc.
Qed.

Lemma missing_source_table_witness :
  let st := connected_state in
  let e := "OperationalError: no such table: " ++ "tag_entity" in
  let new :=
    [ Stdout LRule; Stdout (LMigratingTable "tag_entity"); Stdout LRule;
      PgExecute (PgSelectColumns (schema (pg_config st)) "tag_entity"); PgFetchall;
      SqliteExecute (SqliteCount "tag_entity");
      Stdout (LTableError "tag_entity" e); PgRollback;
      SqliteCursorClose; PgCursorClose ] in
  migrate_table no_source_env "tag_entity" st
  = (inr (0, 0),
     mkState (sqlite_path st) (pg_config st) (sqlite_conn st) (pg_conn st)
       (stats st) [] (pg_committed st) (trace st ++ new)).
Proof.
  apply (missing_source_table no_source_env "tag_entity" tag_columns connected_state).
  - split; reflexivity.
  - vm_compute. reflexivity.
  - discriminate.
  - vm_compute. reflexivity.
Defined.

(** ** All tables: the statistics and the transaction *)

Lemma print_summary_exact items st :
  exists st',
    print_summary items st = (inr tt, st')
    /\ extends (fun _ => true) st st'
    /\ pg_pending st' = pg_pending st
    /\ pg_committed st' = pg_committed st
    /\ trace st' = (trace st ++ summary_lines items)%list.
Proof.
  revert st. induction items as [|[table [inserted skipped]] items IH]; intros st;
    cbn [print_summary].
  - exists st. split; [done|]. split; [apply extends_refl|].
    unfold summary_lines. by rewrite filter_nil, app_nil_r.
  - unfold bind, summary_lines. rewrite filter_cons. cbn [fst snd].
    destruct (Nat.ltb_spec 0 inserted) as [Hi|Hi];
      [|destruct (Nat.ltb_spec 0 skipped) as [Hs|Hs]]; cbn [orb].
    + unfold print at 1.
      destruct (IH (emit (Stdout (LSummaryRow table inserted skipped)) st))
        as (st' & -> & Hext & Hp & Hc & Htr).
      exists st'. split; [done|]. split.
      { eapply extends_trans; [|exact Hext]. by apply emit_extends. }
      split; [done|]. split; [done|].
      rewrite decide_True by (by left). rewrite Htr. cbn [trace emit].
      by rewrite fmap_cons, <- app_assoc.
    + unfold print at 1.
      destruct (IH (emit (Stdout (LSummaryRow table inserted skipped)) st))
        as (st' & -> & Hext & Hp & Hc & Htr).
      exists st'. split; [done|]. split.
      { eapply extends_trans; [|exact Hext]. by apply emit_extends. }
      split; [done|]. split; [done|].
      rewrite decide_True by (by right). rewrite Htr. cbn [trace emit].
      by rewrite fmap_cons, <- app_assoc.
    + unfold ret at 1. rewrite decide_False by lia. apply IH.
Qed.

(** The loop of [migrate_all] over tables that have no entry in [stats]
    yet, started without an open transaction. *)
Lemma migrate_tables_exact env order totals st :
  connected st ->
  NoDup order ->
  (forall table, table ∈ order -> table ∉ dict_keys (stats st)) ->
  pg_pending st = [] ->
  exists entries added st',
    for_each (migrate_all_step env) order totals st
    = (inr (totals.1 + total_inserted entries, totals.2 + total_skipped entries), st')
    /\ same_connections st st'
    /\ stats st' = (stats st ++ entries)%list
    /\ dict_keys entries = order
    /\ pg_pending st' = []
    /\ pg_committed st' = (pg_committed st ++ added)%list
    /\ length added <= total_inserted entries
    /\ Forall (fun r => r.1 ∈ order) added.
Proof.
  revert totals st.
  induction order as [|table order IH]; intros totals st Hconn Hnd Hfresh Hpend;
    cbn [for_each].
  - exists [], [], st. unfold total_inserted, total_skipped. cbn.
    rewrite !Nat.add_0_r, !app_nil_r. destruct totals.
    by repeat split.
  - apply NoDup_cons in Hnd as [Hnot Hnd].
    destruct (migrate_table_returns env table st Hconn) as (c & st1 & Heq & Hext & _).
    destruct (migrate_table_pg env table st Hconn Hpend)
      as (c' & st1' & added1 & Heq' & Hpend1 & Hcom1 & Hlen1 & Hall1).
    rewrite Heq in Heq'. injection Heq' as <- <-.
    assert (stats st1 = stats st) as Hstats by (by destruct Hext as (_&_&_&_&?&_)).
    unfold bind, migrate_all_step at 1, bind. rewrite Heq.
    rewrite Hstats, dict_set_fresh by (apply Hfresh; by left).
    destruct (IH (totals.1 + c.1, totals.2 + c.2)
                 (set_stats (stats st ++ [(table, c)]) st1))
      as (entries & added & st' & -> & Hsame & Hst & Hkeys & Hpend' & Hcom' & Hlen' & Hall').
    { apply (same_connections_connected st); [|done].
      destruct Hext as (?&?&?&?&_). by repeat split. }
    { done. }
    { intros t Ht. cbn [stats set_stats]. unfold dict_keys. rewrite fmap_app.
      intros [Hin| ->%list_elem_of_singleton]%elem_of_app; [|done].
      apply (Hfresh t); [by right|done]. }
    { done. }
    exists ((table, c) :: entries), (added1 ++ added)%list, st'.
    unfold total_inserted, total_skipped in *. cbn [sum_list_with fst snd].
    split; [do 3 f_equal; lia|].
    split.
    { destruct Hext as (?&?&?&?&_), Hsame as (?&?&?&?).
      cbn [sqlite_path pg_config sqlite_conn pg_conn set_stats] in *.
      repeat split; congruence. }
    cbn [stats pg_committed set_stats] in Hst, Hcom'.
    split; [by rewrite Hst, <- app_assoc|].
    split; [unfold dict_keys in *; by rewrite fmap_cons, Hkeys|].
    split; [done|].
    split; [by rewrite Hcom', Hcom1, <- app_assoc|].
    split; [rewrite length_app; lia|].
    apply Forall_app. split.
    + eapply Forall_impl; [exact Hall1|]. intros r ->. by left.
    + eapply Forall_impl; [exact Hall'|]. intros r ?. by right.
Qed.

(** [migrate_all] on a fresh, connected migrator: the loop fills [stats]
    with one entry per table, and the output ends with the summary. *)
Lemma migrate_all_exact env st :
  connected st ->
  stats st = [] ->
  pg_pending st = [] ->
  exists added st1 st',
    migrate_all env st = (inr tt, st')
    /\ same_connections st st'
    /\ dict_keys (stats st') = MIGRATION_ORDER
    /\ pg_pending st' = []
    /\ pg_committed st' = (pg_committed st ++ added)%list
    /\ length added <= total_inserted (stats st')
    /\ Forall (fun r => r.1 ∈ MIGRATION_ORDER) added
    /\ trace st'
       = (trace st1
          ++ [Stdout LRule; Stdout LSummary; Stdout LRule]
          ++ summary_lines (stats st')
          ++ [ Stdout (LTotal (total_inserted (stats st')) (total_skipped (stats st')));
               Stdout LRule ])%list.
Proof.
  intros Hconn Hstats Hpend. unfold migrate_all, bind, print.
  set (st_a := emit (Stdout LTime) _).
  destruct (migrate_tables_exact env MIGRATION_ORDER (0, 0) st_a)
    as (entries & added & st1 & -> & Hsame & Hst & Hkeys & Hpend1 & Hcom1 & Hlen & Hall).
  { by destruct Hconn. }
  { apply MIGRATION_ORDER_NoDup. }
  { intros t _. change (stats st_a) with (stats st). rewrite Hstats. apply not_elem_of_nil. }
  { done. }
  change (stats st_a) with (stats st) in Hst. rewrite Hstats in Hst. cbn in Hst.
  set (st_b := emit (Stdout LRule) (emit (Stdout LSummary) (emit (Stdout LRule) st1))).
  destruct (print_summary_exact (stats st_b) st_b) as (st2 & -> & Hext2 & Hp2 & Hc2 & Htr2).
  assert (stats st2 = entries) as Hst2.
  { destruct Hext2 as (_&_&_&_&->&_). done. }
  exists added, st1. eexists. split; [reflexivity|].
  cbn [stats pg_pending pg_committed trace emit fst snd Nat.add].
  change (pg_committed st_a) with (pg_committed st) in Hcom1.
  change (pg_pending st_b) with (pg_pending st1) in Hp2.
  change (pg_committed st_b) with (pg_committed st1) in Hc2.
  change (stats st_b) with (stats st1) in Htr2.
  unfold st_b in Htr2 at 1. cbn [trace emit] in Htr2.
  rewrite Hst2, Hp2, Hc2, Htr2, Hst.
  split.
  { assert (same_connections st st_a) as Ha by (by repeat split).
    assert (same_connections st1 st2) as H12.
    { destruct Hext2 as (?&?&?&?&_). by repeat split. }
    destruct Ha as (?&?&?&?), Hsame as (?&?&?&?), H12 as (?&?&?&?).
    repeat split; cbn [sqlite_path pg_config sqlite_conn pg_conn emit]; congruence. }
  split; [done|]. split; [done|]. split; [done|]. split; [done|]. split; [done|].
  cbn [trace emit]. by rewrite <- !app_assoc.
Qed.



(** ** The whole run, case by case *)

(** X14. When the source database cannot be opened, [main] returns 1
    having printed the failure and the traceback; the destination server
    is never contacted, no statement is executed and there is no
    connection to close. *)
Theorem sqlite_connect_failure (env : Env) (sqlite : string) (cfg : PgConfig)
    (committed : list PgRow) (e : Exn) :
  sqlite3_connect_error env sqlite = Some e ->
  main env sqlite cfg committed
  = (inr 1%Z,
     mkState sqlite cfg None None [] [] committed
       [ Stdout (LConnectingSqlite sqlite); SqliteConnect sqlite;
         Stdout (LFailed e); Stderr (LTraceback e) ]).
Proof.
  intros Hfail.
  unfold main, try_finally, try_except, main_try, bind, connect, N8NMigrator_init.
  cbn [sqlite_path emit]. rewrite Hfail. reflexivity.
Qed.

(** X15. When the source opens and the destination server refuses the
    connection, [main] returns 1 having printed the failure and the
    traceback; no statement is executed on either side, and the source
    connection, the only one established, is closed. *)
Theorem pg_connect_failure (env : Env) (sqlite : string) (cfg : PgConfig)
    (committed : list PgRow) (e : Exn) :
  sqlite3_connect_error env sqlite = None ->
  psycopg2_connect_error env cfg = Some e ->
  main env sqlite cfg committed
  = (inr 1%Z,
     mkState sqlite cfg (Some ConnClosed) None [] [] committed
       [ Stdout (LConnectingSqlite sqlite); SqliteConnect sqlite;
         Stdout (LConnectingPg (host cfg) (port cfg) (database cfg)); PgConnect cfg;
         Stdout (LFailed e); Stderr (LTraceback e); SqliteClose ]).
Proof.
  intros Hok Hfail.
  unfold main, try_finally, try_except, main_try, bind, connect, N8NMigrator_init.
  cbn [sqlite_path pg_config emit set_sqlite_conn]. rewrite Hok, Hfail. reflexivity.
Qed.

Lemma sqlite_connect_failure_witness :
  main no_source_file_env "database.sqlite" example_cfg []
  = (inr 1%Z,
     mkState "database.sqlite" example_cfg None None [] [] []
       [ Stdout (LConnectingSqlite "database.sqlite"); SqliteConnect "database.sqlite";
         Stdout (LFailed "OperationalError: unable to open database file");
         Stderr (LTraceback "OperationalError: unable to open database file") ]).
Proof.
  apply (sqlite_connect_failure no_source_file_env "database.sqlite" example_cfg []).
  reflexivity.
Defined.

Lemma pg_connect_failure_witness :
  main no_server_env "database.sqlite" example_cfg []
  = (inr 1%Z,
     mkState "database.sqlite" example_cfg (Some ConnClosed) None [] [] []
       [ Stdout (LConnectingSqlite "database.sqlite"); SqliteConnect "database.sqlite";
         Stdout (LConnectingPg (host example_cfg) (port example_cfg) (database example_cfg));
         PgConnect example_cfg;
         Stdout (LFailed "OperationalError: could not connect to server");
         Stderr (LTraceback "OperationalError: could not connect to server");
         SqliteClose ]).
Proof.
  apply (pg_connect_failure no_server_env "database.sqlite" example_cfg []);
    reflexivity.
Defined.

Lemma connect_ok env sqlite cfg committed :
  sqlite3_connect_error env sqlite = None ->
  psycopg2_connect_error env cfg = None ->
  connect env (N8NMigrator_init sqlite cfg committed)
  = (inr tt, after_connect sqlite cfg committed).
Proof.
  intros Hs Hp. unfold connect, N8NMigrator_init.
  cbn [sqlite_path pg_config emit set_sqlite_conn]. by rewrite Hs, Hp.
Qed.

Lemma verify_migration_cases env st :
  connected st ->
  exists r st',
    verify_migration env st = (r, st')
    /\ extends not_banner st st'
    /\ pg_pending st' = pg_pending st
    /\ pg_committed st' = pg_committed st
    /\ (forall e, (forall s, pg_count_result env s (schema (pg_config st))
                               "workflow_entity" = inl e) -> r = inl e)
    /\ ((forall s table, In table verified_tables ->
           exists n, pg_count_result env s (schema (pg_config st)) table = inr n) ->
        r = inr tt).
Proof.
  intros [Hsqlite Hpg].
  unfold verify_migration, bind, print, pg_cursor.
  change (pg_conn (emit _ (emit _ (emit _ st)))) with (pg_conn st).
  rewrite Hpg. cbn [cursor ret]. unfold pg_select_count.
  cbn [pg_config emit].
  destruct (pg_count_result env _ _ "workflow_entity") as [e1|n1] eqn:E1.
  { eexists _, _. split; [reflexivity|]. split; [extends_steps|].
    split; [done|]. split; [done|]. split.
    - intros e He. rewrite He in E1. by injection E1 as ->.
    - intros Hall.
      match type of E1 with pg_count_result _ ?s _ _ = _ =>
        destruct (Hall s "workflow_entity") as [n Hn]; [simpl; tauto|] end.
      rewrite Hn in E1. discriminate. }
  cbn [pg_config emit].
  destruct (pg_count_result env _ _ "credentials_entity") as [e2|n2] eqn:E2.
  { eexists _, _. split; [reflexivity|]. split; [extends_steps|].
    split; [done|]. split; [done|]. split.
    - intros e He. rewrite He in E1. discriminate.
    - intros Hall.
      match type of E2 with pg_count_result _ ?s _ _ = _ =>
        destruct (Hall s "credentials_entity") as [n Hn]; [simpl; tauto|] end.
      rewrite Hn in E2. discriminate. }
  cbn [pg_config emit].
  destruct (pg_count_result env _ _ "execution_entity") as [e3|n3] eqn:E3.
  { eexists _, _. split; [reflexivity|]. split; [extends_steps|].
    split; [done|]. split; [done|]. split.
    - intros e He. rewrite He in E1. discriminate.
    - intros Hall.
      match type of E3 with pg_count_result _ ?s _ _ = _ =>
        destruct (Hall s "execution_entity") as [n Hn]; [simpl; tauto|] end.
      rewrite Hn in E3. discriminate. }
  eexists _, _. split; [reflexivity|]. split; [extends_steps|].
  split; [done|]. split; [done|]. split; [|done].
  intros e He. rewrite He in E1. discriminate.
Qed.

Lemma close_connected st :
  connected st ->
  close st
  = (inr tt,
     set_pg_conn (Some ConnClosed)
       (emit PgClose (set_sqlite_conn (Some ConnClosed) (emit SqliteClose st)))).
Proof.
  intros [Hs Hp]. unfold close. rewrite Hs.
  change (pg_conn (set_sqlite_conn _ (emit _ st))) with (pg_conn st).
  by rewrite Hp.
Qed.

(** What a run does once both connections are established. *)
Lemma main_connected env sqlite cfg committed :
  sqlite3_connect_error env sqlite = None ->
  psycopg2_connect_error env cfg = None ->
  exists added st_m r st_v,
    migrate_all env (after_connect sqlite cfg committed) = (inr tt, st_m)
    /\ verify_migration env st_m = (r, st_v)
    /\ main_try env (N8NMigrator_init sqlite cfg committed)
       = match r with
         | inr _ => (inr 0%Z, emit (Stdout LCompleted) st_v)
         | inl e => (inl e, st_v)
         end
    /\ connected st_v
    /\ pg_config st_m = cfg
    /\ dict_keys (stats st_v) = MIGRATION_ORDER
    /\ attempted (trace st_v) = MIGRATION_ORDER
    /\ pg_pending st_v = []
    /\ pg_committed st_v = (committed ++ added)%list
    /\ length added <= total_inserted (stats st_v)
    /\ (forall e, (forall s, pg_count_result env s (schema cfg) "workflow_entity" = inl e) ->
          r = inl e)
    /\ ((forall s table, In table verified_tables ->
           exists n, pg_count_result env s (schema cfg) table = inr n) ->
        r = inr tt).
Proof.
  intros Hs Hp.
  assert (connected (after_connect sqlite cfg committed)) as Hconn by (by split).
  destruct (migrate_all_exact env (after_connect sqlite cfg committed) Hconn)
    as (added & st1 & st_m & Heq & Hsame & Hkeys & Hpend & Hcom & Hlen & _ & _);
    [done|done|].
  destruct (migrate_all_returns env _ Hconn) as (st_m' & Heq' & _ & Hatt).
  rewrite Heq in Heq'. injection Heq' as <-.
  assert (connected st_m) as Hm by (by apply (same_connections_connected _ _ Hsame)).
  assert (pg_config st_m = cfg) as Hcfg by (by destruct Hsame as (_&->&_)).
  destruct (verify_migration_cases env st_m Hm)
    as (r & st_v & Hv & Hext & Hp_v & Hc_v & Hfail & Hok).
  rewrite Hcfg in Hfail, Hok.
  exists added, st_m, r, st_v. split; [done|]. split; [done|]. split.
  { unfold main_try, bind. rewrite (connect_ok _ _ _ _ Hs Hp), Heq, Hv.
    by destruct r as [e|[]]. }
  split; [by apply (connected_extends _ _ _ Hext)|]. split; [done|].
  split; [by destruct Hext as (_&_&_&_&->&_)|].
  split; [by rewrite (extends_attempted _ _ Hext), Hatt|].
  split; [by rewrite Hp_v|]. split; [by rewrite Hc_v|].
  split; [by destruct Hext as (_&_&_&_&->&_)|]. by split.
Qed.

Lemma attempted_emit e st :
  attempted (trace (emit e st))
  = (attempted (trace st) ++ from_option (fun t => [t]) [] (attempted_table e))%list.
Proof. cbn [trace emit]. by rewrite attempted_app. Qed.



(** X17. When both connections are established and the three counting
    queries succeed, [main] returns 0 having printed the completion line.
    Every table of [MIGRATION_ORDER] was attempted, in order, and has its
    entry in [stats]; no transaction is left open; the destination holds
    what it held plus at most as many rows as the insert counters add up
    to; and both connections are closed. *)
Theorem successful_run (env : Env) (sqlite : string) (cfg : PgConfig)
    (committed : list PgRow) :
  sqlite3_connect_error env sqlite = None ->
  psycopg2_connect_error env cfg = None ->
  (forall s table, In table verified_tables ->
     exists n, pg_count_result env s (schema cfg) table = inr n) ->
  exists st' added,
    main env sqlite cfg committed = (inr 0%Z, st')
    /\ In (Stdout LCompleted) (trace st')
    /\ attempted (trace st') = MIGRATION_ORDER
    /\ dict_keys (stats st') = MIGRATION_ORDER
    /\ pg_pending st' = []
    /\ pg_committed st' = (committed ++ added)%list
    /\ length added <= total_inserted (stats st')
    /\ sqlite_conn st' = Some ConnClosed
    /\ pg_conn st' = Some ConnClosed.
Proof.
  intros Hs Hp Hcount.
  destruct (main_connected env sqlite cfg committed Hs Hp)
    as (added & st_m & r & st_v & _ & _ & Htry & Hconn & _ & Hkeys & Hatt & Hpend & Hcom
        & Hlen & _ & Hr).
  rewrite (Hr Hcount) in Htry.
  unfold main, try_finally, try_except. rewrite Htry.
  rewrite close_connected by (by destruct Hconn).
  eexists _, added. split; [reflexivity|].
  split; [cbn [trace emit set_pg_conn set_sqlite_conn]; rewrite !in_app_iff; simpl; tauto|].
  split.
  { cbn [trace set_pg_conn set_sqlite_conn]. rewrite attempted_emit.
    cbn [trace set_pg_conn set_sqlite_conn]. rewrite !attempted_emit, Hatt.
    cbn [attempted_table from_option]. by rewrite !app_nil_r. }
  by repeat split.
Qed.

Lemma successful_run_witness :
  exists st' added,
    main tag_env "database.sqlite" example_cfg [] = (inr 0%Z, st')
    /\ In (Stdout LCompleted) (trace st')
    /\ attempted (trace st') = MIGRATION_ORDER
    /\ dict_keys (stats st') = MIGRATION_ORDER
    /\ pg_pending st' = []
    /\ pg_committed st' = ([] ++ added)%list
    /\ length added <= total_inserted (stats st')
    /\ sqlite_conn st' = Some ConnClosed
    /\ pg_conn st' = Some ConnClosed.
Proof.
  apply (successful_run tag_env "database.sqlite" example_cfg []);
    [reflexivity|reflexivity|].
  intros s table _. by exists 0.
Defined.

(** ** What a table commits *)

Lemma returned_le answer sent : returned answer sent <= length sent.
Proof. apply length_filter. Qed.

Lemma returned_cons answer data sent :
  returned answer (data :: sent)
  = (if is_failed (answer data) then 0 else 1) + returned answer sent.
Proof.
  unfold returned. rewrite filter_cons.
  destruct (is_failed (answer data)); case_decide; done.
Qed.

Lemma migrate_rows_answer env table_name pg_columns rows inserted skipped st answer :
  (forall s data,
      pg_insert_outcome env s (schema (pg_config st)) table_name data = answer data) ->
  let sent := sent_data env table_name pg_columns rows in
  exists st',
    for_each (migrate_row env table_name pg_columns) rows (inserted, skipped) st
    = (inr (inserted + returned answer sent,
            skipped + (length rows - returned answer sent)), st')
    /\ pg_config st' = pg_config st
    /\ pg_committed st' = pg_committed st
    /\ pg_pending st' = survivors answer table_name (pg_pending st) sent.
Proof.
  intros Hout. cbn zeta. revert inserted skipped st Hout.
  induction rows as [|row rows IH]; intros inserted skipped st Hout; cbn [for_each].
  - exists st. rewrite !Nat.add_0_r. by repeat split.
  - unfold bind. rewrite migrate_row_exact, sent_data_cons.
    pose proof (sent_data_length env table_name pg_columns rows) as Hlen.
    pose proof (returned_le answer (sent_data env table_name pg_columns rows)) as Hret.
    set (data := row_data env table_name pg_columns row).
    set (sent := sent_data env table_name pg_columns rows) in *.
    case_bool_decide as Hempty.
    { destruct (IH inserted (S skipped) st Hout) as (st' & -> & ? & ? & ?).
      exists st'. split; [|done]. do 3 f_equal. cbn [length]. lia. }
    rewrite Hout, returned_cons. unfold survivors. cbn [foldl].
    destruct (answer data) as [| |e] eqn:Hans; cbn [is_failed].
    + match goal with |- context [for_each _ rows ?acc ?s] =>
        destruct (IH (S inserted) skipped s) as (st' & -> & Hcfg & Hcom & Hpen);
          [exact Hout|] end.
      exists st'. split; [do 3 f_equal; cbn [length]; lia|]. by repeat split.
    + match goal with |- context [for_each _ rows ?acc ?s] =>
        destruct (IH (S inserted) skipped s) as (st' & -> & Hcfg & Hcom & Hpen);
          [exact Hout|] end.
      exists st'. split; [do 3 f_equal; cbn [length]; lia|]. by repeat split.
    + match goal with |- context [for_each _ rows ?acc ?s] =>
        destruct (IH inserted (S skipped) s) as (st' & -> & Hcfg & Hcom & Hpen);
          [exact Hout|] end.
      exists st'. split; [do 3 f_equal; cbn [length]; lia|]. by repeat split.
Qed.

(** X18. When the answer of the destination to an INSERT depends on the
    cells sent only and the commit succeeds, [migrate_table], called
    without an open transaction on a table that has columns in the
    destination, reports as inserted the rows whose INSERT returned and as
    skipped all the others, and commits the rows that were stored after
    the last failed INSERT: each failure discards the rows stored before
    it. *)
Theorem migrate_table_commits_survivors (env : Env) (table_name : string)
    (pg_columns : list string) (rows : list Row) (st : State)
    (answer : list (string * Value) -> InsertOutcome) :
  connected st ->
  pg_pending st = [] ->
  pg_columns_of env (after_banner table_name st) (schema (pg_config st)) table_name
  = inr pg_columns ->
  pg_columns <> [] ->
  sqlite_tables env !! table_name = Some rows ->
  (forall s data,
      pg_insert_outcome env s (schema (pg_config st)) table_name data = answer data) ->
  (forall s, pg_commit_error env s = None) ->
  let sent := sent_data env table_name pg_columns rows in
  exists st',
    migrate_table env table_name st
    = (inr (returned answer sent, length rows - returned answer sent), st')
    /\ pg_pending st' = []
    /\ pg_committed st' = (pg_committed st ++ survivors answer table_name [] sent)%list.
Proof.
  intros Hconn Hpend Hcols Hne Hrows Hanswer Hcommit sent.
  rewrite (migrate_table_unfold _ _ _ Hconn), migrate_table_try_exact.
  change (schema (pg_config (after_banner table_name st))) with (schema (pg_config st)).
  rewrite Hcols, Hrows. rewrite bool_decide_eq_false_2 by done.
  case_bool_decide as Hempty.
  { subst rows. eexists. split; [done|]. cbn. by rewrite app_nil_r. }
  destruct (migrate_rows_answer env table_name pg_columns rows 0 0
              (before_rows table_name (length rows) (after_banner table_name st))
              answer) as (st2 & -> & _ & Hcom & Hpen); [exact Hanswer|].
  rewrite Hcommit. eexists. split; [done|]. cbn.
  rewrite Hcom, Hpen. cbn. by rewrite Hpend.
Qed.

Lemma migrate_table_commits_survivors_witness :
  let sent := sent_data tag_env "tag_entity" tag_columns [tag_row_1; tag_row_2] in
  exists st',
    migrate_table tag_env "tag_entity" connected_state
    = (inr (returned reject_null_name sent,
            length [tag_row_1; tag_row_2] - returned reject_null_name sent), st')
    /\ pg_pending st' = []
    /\ pg_committed st'
       = (pg_committed connected_state
          ++ survivors reject_null_name "tag_entity" [] sent)%list.
Proof.
  apply (migrate_table_commits_survivors tag_env "tag_entity" tag_columns
           [tag_row_1; tag_row_2] connected_state reject_null_name).
  - split; reflexivity.
  - reflexivity.
  - vm_compute. reflexivity.
  - discriminate.
  - vm_compute. reflexivity.
  - reflexivity.
  - reflexivity.
Defined.

(** * A destination connection that can be lost *)

(** ** The two models agree while [cursor()] and [rollback()] return *)

Lemma bind_ext {A B} (m m' : M A) (f f' : A -> M B) st :
  m st = m' st -> (forall a s, f a s = f' a s) -> bind m f st = bind m' f' st.
Proof.
  intros Hm Hf. unfold bind. rewrite Hm.
  destruct (m' st) as [[e|a] s]; [reflexivity|apply Hf].
Qed.

Lemma bind_ext_from {A B} (m : M A) (f f' : A -> M B) st :
  (forall a s, m st = (inr a, s) -> f a s = f' a s) -> bind m f st = bind m f' st.
Proof.
  intros Hf. unfold bind. destruct (m st) as [[e|a] s]; [reflexivity|by apply Hf].
Qed.

Lemma try_except_ext {A} (body body' : M A) (handler handler' : Exn -> M A) st :
  body st = body' st ->
  (forall e s, handler e s = handler' e s) ->
  try_except body handler st = try_except body' handler' st.
Proof.
  intros Hb Hh. unfold try_except. rewrite Hb.
  destruct (body' st) as [[e|a] s]; [apply Hh|reflexivity].
Qed.

Lemma try_finally_ext {A} (body body' : M A) (final : M unit) st :
  body st = body' st -> try_finally body final st = try_finally body' final st.
Proof. intros Hb. unfold try_finally. by rewrite Hb. Qed.

Lemma for_each_ext {A B} (body body' : B -> A -> M B) xs acc st :
  (forall acc x s, body acc x s = body' acc x s) ->
  for_each body xs acc st = for_each body' xs acc st.
Proof.
  intros Hb. revert acc st. induction xs as [|x xs IH]; intros acc st; [reflexivity|].
  cbn [for_each]. apply bind_ext; [apply Hb|]. intros a s. apply IH.
Qed.

Lemma bind_print {A} (l : Line) (f : unit -> M A) st :
  bind (print l) f st = f tt (emit (Stdout l) st).
Proof. reflexivity. Qed.

Section Refinement.

Context (env : Env) (faults : Faults).

Hypothesis rollback_returns : forall s, pg_rollback_error faults s = None.

Lemma pg_rollback_refines st : Fallible.pg_rollback faults st = pg_rollback st.
Proof. unfold Fallible.pg_rollback, pg_rollback. by rewrite rollback_returns. Qed.

Lemma migrate_row_refines table_name pg_columns counters row st :
  Fallible.migrate_row env faults table_name pg_columns counters row st
  = migrate_row env table_name pg_columns counters row st.
Proof.
  destruct counters as [inserted skipped]. unfold Fallible.migrate_row, migrate_row.
  apply bind_ext; [reflexivity|]. intros data s.
  case_bool_decide; [reflexivity|].
  apply bind_ext; [reflexivity|]. intros values s'.
  apply try_except_ext; [reflexivity|]. intros e s''.
  do 3 (apply bind_ext; [reflexivity|]; intros ? ?).
  apply bind_ext; [apply pg_rollback_refines|reflexivity].
Qed.

Lemma migrate_table_try_refines table_name st :
  Fallible.migrate_table_try env faults table_name st = migrate_table_try env table_name st.
Proof.
  unfold Fallible.migrate_table_try, migrate_table_try.
  apply bind_ext; [reflexivity|]. intros pg_columns s.
  case_bool_decide; [reflexivity|].
  apply bind_ext; [reflexivity|]. intros total_rows s1.
  case_bool_decide; [reflexivity|].
  apply bind_ext; [reflexivity|]. intros ? s2.
  apply bind_ext; [reflexivity|]. intros rows s3.
  apply bind_ext; [|reflexivity].
  apply for_each_ext. intros. apply migrate_row_refines.
Qed.

Lemma migrate_table_refines table_name st :
  pg_cursor_error faults (after_banner table_name st) = None ->
  Fallible.migrate_table env faults table_name st = migrate_table env table_name st.
Proof.
  intros Hcur. unfold Fallible.migrate_table, migrate_table.
  rewrite !bind_print. fold (after_banner table_name st).
  apply bind_ext_from. intros [] s Hs.
  assert (s = after_banner table_name st) as ->.
  { unfold sqlite_cursor, cursor in Hs.
    destruct (sqlite_conn (after_banner table_name st)) as [[|]|]; by inversion Hs. }
  apply bind_ext.
  - unfold Fallible.pg_cursor, pg_cursor. by rewrite Hcur.
  - intros [] s'. apply try_finally_ext.
    apply try_except_ext; [apply migrate_table_try_refines|]. intros e s''.
    apply bind_ext; [reflexivity|]. intros ? ?.
    apply bind_ext; [apply pg_rollback_refines|reflexivity].
Qed.

Hypothesis cursor_returns : forall s, pg_cursor_error faults s = None.

Lemma migrate_all_step_refines totals table st :
  Fallible.migrate_all_step env faults totals table st = migrate_all_step env totals table st.
Proof.
  unfold Fallible.migrate_all_step, migrate_all_step.
  apply bind_ext; [|reflexivity]. apply migrate_table_refines, cursor_returns.
Qed.

Lemma migrate_tables_refines tables totals st :
  for_each (Fallible.migrate_all_step env faults) tables totals st
  = for_each (migrate_all_step env) tables totals st.
Proof. apply for_each_ext. intros. apply migrate_all_step_refines. Qed.

Lemma migrate_all_refines st : Fallible.migrate_all env faults st = migrate_all env st.
Proof.
  unfold Fallible.migrate_all, migrate_all.
  do 4 (apply bind_ext; [reflexivity|]; intros ? ?).
  apply bind_ext; [apply migrate_tables_refines|reflexivity].
Qed.

Lemma verify_migration_refines st :
  Fallible.verify_migration env faults st = verify_migration env st.
Proof.
  unfold Fallible.verify_migration, verify_migration.
  do 3 (apply bind_ext; [reflexivity|]; intros ? ?).
  apply bind_ext; [|reflexivity].
  unfold Fallible.pg_cursor, pg_cursor. by rewrite cursor_returns.
Qed.

Lemma main_refines sqlite cfg committed :
  Fallible.main env faults sqlite cfg committed = main env sqlite cfg committed.
Proof.
  unfold Fallible.main, main. apply try_finally_ext.
  unfold try_except.
  assert (forall s, Fallible.main_try env faults s = main_try env s) as ->; [|reflexivity].
  intros s. unfold Fallible.main_try, main_try.
  apply bind_ext; [reflexivity|]. intros ? ?.
  apply bind_ext; [apply migrate_all_refines|]. intros ? ?.
  apply bind_ext; [apply verify_migration_refines|reflexivity].
Qed.

End Refinement.
(** ** One row and one table, with a rollback that can raise *)

(** What one pass of the row loop does when the INSERT raises: the three
    lines are printed, then the rollback is called in the state [logged],
    and what it raises leaves the loop body. *)
Lemma fallible_migrate_row_failed env faults table_name pg_columns inserted skipped row st e :
  let data := row_data env table_name pg_columns row in
  let sch := schema (pg_config st) in
  let logged :=
    emit (Stdout (LValues (take 3 (data.*2))))
      (emit (Stdout (LColumns (dict_keys data)))
         (emit (Stdout (LInsertError e))
            (emit (PgExecute (PgInsert sch table_name (dict_keys data) (data.*2))) st))) in
  data <> [] ->
  pg_insert_outcome env st sch table_name data = Failed e ->
  Fallible.migrate_row env faults table_name pg_columns (inserted, skipped) row st
  = match pg_rollback_error faults logged with
    | None => (inr (inserted, S skipped), set_pg [] (pg_committed st) (emit PgRollback logged))
    | Some e' => (inl e', emit PgRollback logged)
    end.
Proof.
  intros data sch logged Hne Hfail.
  unfold Fallible.migrate_row, bind, lift.
  rewrite (row_data_transform env table_name pg_columns row). fold data.
  rewrite bool_decide_eq_false_2 by done.
  rewrite (dict_values_NoDup data (row_data_NoDup env table_name pg_columns row)).
  unfold try_except, pg_execute_insert, bind. cbn zeta.
  replace (zip (dict_keys data) (data.*2)) with data by (symmetry; apply zip_fst_snd).
  fold sch. rewrite Hfail.
  unfold print, Fallible.pg_rollback. fold logged.
  by destruct (pg_rollback_error faults logged).
Qed.

(** [migrate_table] on a connected migrator whose [cursor()] returns: what
    the statements under [try:] return, or, when they raise, (0, 0) after
    the handler, unless the rollback of the handler raises in turn. *)
Lemma fallible_migrate_table_unfold env faults table_name st :
  connected st ->
  pg_cursor_error faults (after_banner table_name st) = None ->
  Fallible.migrate_table env faults table_name st
  = match Fallible.migrate_table_try env faults table_name (after_banner table_name st) with
    | (inr c, st1) => (inr c, close_cursors st1)
    | (inl e, st1) =>
        match pg_rollback_error faults (table_error_reported table_name e st1) with
        | None => (inr (0, 0), close_cursors (after_table_error table_name e st1))
        | Some e' =>
            (inl e',
             close_cursors (after_failed_rollback (table_error_reported table_name e st1)))
        end
    end.
Proof.
  intros [Hsqlite Hpg] Hcur.
  unfold Fallible.migrate_table. rewrite !bind_print. fold (after_banner table_name st).
  unfold bind, sqlite_cursor, Fallible.pg_cursor.
  change (sqlite_conn (after_banner table_name st)) with (sqlite_conn st).
  rewrite Hsqlite. cbn [cursor ret]. rewrite Hcur.
  change (pg_conn (after_banner table_name st)) with (pg_conn st).
  rewrite Hpg. cbn [cursor ret].
  unfold try_finally, try_except.
  destruct (Fallible.migrate_table_try env faults table_name (after_banner table_name st))
    as [[e|c] st1]; [|reflexivity].
  unfold print, Fallible.pg_rollback, ret.
  fold (table_error_reported table_name e st1).
  by destruct (pg_rollback_error faults (table_error_reported table_name e st1)).
Qed.

(** When [cursor()] raises, [migrate_table] ends before its [try:]. *)
Lemma fallible_migrate_table_no_cursor env faults table_name st e :
  sqlite_conn st = Some ConnOpen ->
  pg_cursor_error faults (after_banner table_name st) = Some e ->
  Fallible.migrate_table env faults table_name st = (inl e, after_banner table_name st).
Proof.
  intros Hsqlite Hcur.
  unfold Fallible.migrate_table. rewrite !bind_print. fold (after_banner table_name st).
  unfold bind, sqlite_cursor, Fallible.pg_cursor.
  change (sqlite_conn (after_banner table_name st)) with (sqlite_conn st).
  rewrite Hsqlite. cbn [cursor ret]. by rewrite Hcur.
Qed.

(** ** The run on a connection that can be lost *)

(** C6, as the code has it.  The server goes away before the first catalog
    query: the query raises, the handler of [migrate_table] prints the
    error and calls [rollback()], which raises on the closed connection.
    That exception leaves [migrate_table] and [migrate_all]: the first
    table of the 44 is the only one attempted, no counters are recorded
    and no summary is printed. *)
Lemma migrate_all_stops_when_rollback_raises :
  exists st',
    Fallible.migrate_all lost_env lost_faults connected_state = (inl already_closed, st')
    /\ attempted (trace st') = take 1 MIGRATION_ORDER
    /\ length MIGRATION_ORDER = 44
    /\ stats st' = []
    /\ trace st'
       = [ Stdout LRule; Stdout LStarting; Stdout LRule; Stdout LTime;
           Stdout LRule; Stdout (LMigratingTable "migrations"); Stdout LRule;
           PgExecute (PgSelectColumns "n8n" "migrations");
           Stdout (LTableError "migrations" connection_lost);
           PgRollback; SqliteCursorClose; PgCursorClose ].
Proof.
  eexists. split; [vm_compute; reflexivity|]. repeat split.
Qed.

(** C6, amended.  On a connected migrator, as long as [cursor()] and
    [rollback()] return, [migrate_all] returns and the banners it prints
    name every table of [MIGRATION_ORDER], once each and in that order.
    When the statements under the [try:] of a table raise, the handler
    prints the error and rolls back: if the rollback returns,
    [migrate_table] returns (0, 0) and the loop goes on with the remaining
    tables on unchanged totals; if the rollback raises, that exception
    leaves [migrate_table] after the cursors are closed, and the loop ends
    with it. *)
Theorem migrate_all_attempts_every_table_while_rollback_returns
    (env : Env) (faults : Faults) (st : State) :
  connected st ->
  NoDup MIGRATION_ORDER
  /\ ((forall s, pg_cursor_error faults s = None) ->
      (forall s, pg_rollback_error faults s = None) ->
      exists st',
        Fallible.migrate_all env faults st = (inr tt, st')
        /\ attempted (trace st') = (attempted (trace st) ++ MIGRATION_ORDER)%list)
  /\ (forall table rest inserted skipped s e s1,
        connected s ->
        pg_cursor_error faults (after_banner table s) = None ->
        Fallible.migrate_table_try env faults table (after_banner table s) = (inl e, s1) ->
        match pg_rollback_error faults (table_error_reported table e s1) with
        | None =>
            exists s2,
              Fallible.migrate_table env faults table s = (inr (0, 0), s2)
              /\ In (Stdout (LTableError table e)) (trace s2)
              /\ for_each (Fallible.migrate_all_step env faults) (table :: rest)
                   (inserted, skipped) s
                 = for_each (Fallible.migrate_all_step env faults) rest (inserted, skipped)
                     (set_stats (dict_set table (0, 0) (stats s2)) s2)
        | Some e' =>
            exists s2,
              Fallible.migrate_table env faults table s = (inl e', s2)
              /\ In (Stdout (LTableError table e)) (trace s2)
              /\ for_each (Fallible.migrate_all_step env faults) (table :: rest)
                   (inserted, skipped) s
                 = (inl e', s2)
        end).
Proof.
  intros Hconn. split; [apply MIGRATION_ORDER_NoDup|]. split.
  - intros Hcur Hroll. rewrite (migrate_all_refines env faults Hroll Hcur).
    destruct (migrate_all_returns env st Hconn) as (st' & Heq & _ & Hatt). eauto.
  - intros table rest inserted skipped s e s1 Hs Hcur Hraise.
    pose proof (fallible_migrate_table_unfold env faults table s Hs Hcur) as Hrun.
    rewrite Hraise in Hrun.
    destruct (pg_rollback_error faults (table_error_reported table e s1)) as [e'|].
    + eexists. split; [exact Hrun|]. split.
      * unfold close_cursors, after_failed_rollback, table_error_reported.
        cbn [trace emit]. rewrite !in_app_iff. simpl. tauto.
      * cbn [for_each]. unfold bind, Fallible.migrate_all_step at 1, bind.
        by rewrite Hrun.
    + eexists. split; [exact Hrun|]. split.
      * unfold close_cursors, after_table_error. cbn [trace emit set_pg].
        rewrite !in_app_iff. simpl. tauto.
      * cbn [for_each]. unfold bind, Fallible.migrate_all_step at 1, bind. rewrite Hrun.
        cbn [fst snd]. by rewrite !Nat.add_0_r.
Qed.
Lemma migrate_all_attempts_every_table_while_rollback_returns_witness :
  let st := connected_state in
  let steps env faults := for_each (Fallible.migrate_all_step env faults) in
  (exists st',
     Fallible.migrate_all tag_env no_faults st = (inr tt, st')
     /\ attempted (trace st') = (attempted (trace st) ++ MIGRATION_ORDER)%list)
  /\ (exists s2,
        Fallible.migrate_table catalog_fails_env no_faults "tag_entity" st = (inr (0, 0), s2)
        /\ In (Stdout (LTableError "tag_entity"
                         "InsufficientPrivilege: permission denied for schema"))
              (trace s2)
        /\ steps catalog_fails_env no_faults ["tag_entity"; "user"] (3, 1) st
           = steps catalog_fails_env no_faults ["user"] (3, 1)
               (set_stats (dict_set "tag_entity" (0, 0) (stats s2)) s2))
  /\ (exists s2,
        Fallible.migrate_table lost_env lost_faults "tag_entity" st = (inl already_closed, s2)
        /\ In (Stdout (LTableError "tag_entity" connection_lost)) (trace s2)
        /\ steps lost_env lost_faults ["tag_entity"; "user"] (3, 1) st
           = (inl already_closed, s2)).
Proof.
  assert (connected connected_state) as Hconn by (split; reflexivity).
  split; [|split].
  - apply (proj1 (proj2 (migrate_all_attempts_every_table_while_rollback_returns
                           tag_env no_faults connected_state Hconn)));
      reflexivity.
  - apply (proj2 (proj2 (migrate_all_attempts_every_table_while_rollback_returns
                           catalog_fails_env no_faults connected_state Hconn))
             "tag_entity" ["user"] 3 1 connected_state
             "InsufficientPrivilege: permission denied for schema"
             (emit (PgExecute (PgSelectColumns "n8n" "tag_entity"))
                (after_banner "tag_entity" connected_state))
             Hconn);
      reflexivity.
  - apply (proj2 (proj2 (migrate_all_attempts_every_table_while_rollback_returns
                           lost_env lost_faults connected_state Hconn))
             "tag_entity" ["user"] 3 1 connected_state connection_lost
             (emit (PgExecute (PgSelectColumns "n8n" "tag_entity"))
                (after_banner "tag_entity" connected_state))
             Hconn);
      reflexivity.
Defined.

(** ** One table: what is sent, what is reported *)

(** X6. On a connected migrator whose [cursor()] returns, when the
    destination table has the columns [pg_columns] and the source table
    holds [rows], and as long as every rollback returns, the INSERT
    statements [migrate_table] executes are those of the rows with a
    non-empty mapping, one per row and in the order of the rows, whether
    the destination stores, ignores or rejects any of them and whether or
    not the commit succeeds. *)
Theorem migrate_table_sends_each_row (env : Env) (faults : Faults) (table_name : string)
    (pg_columns : list string) (rows : list Row) (st : State) :
  connected st ->
  pg_cursor_error faults (after_banner table_name st) = None ->
  (forall s, pg_rollback_error faults s = None) ->
  pg_columns_of env (after_banner table_name st) (schema (pg_config st)) table_name
  = inr pg_columns ->
  sqlite_tables env !! table_name = Some rows ->
  exists c st',
    Fallible.migrate_table env faults table_name st = (inr c, st')
    /\ inserts (trace st')
       = (inserts (trace st)
          ++ (insert_for (schema (pg_config st)) table_name
                <$> sent_data env table_name pg_columns rows))%list.
Proof.
  intros Hconn Hcur Hroll Hcols Hrows.
  rewrite (migrate_table_refines env faults Hroll _ _ Hcur).
  rewrite (migrate_table_unfold _ _ _ Hconn), migrate_table_try_exact.
  change (schema (pg_config (after_banner table_name st))) with (schema (pg_config st)).
  rewrite Hcols, Hrows.
  case_bool_decide as Hno; [|case_bool_decide as Hempty].
  - subst pg_columns. rewrite sent_data_no_columns.
    eexists _, _. split; [done|].
    unfold close_cursors, after_columns, after_banner.
    rewrite !inserts_emit. simpl. by rewrite !app_nil_r.
  - subst rows. eexists _, _. split; [done|].
    unfold close_cursors, after_columns, after_banner.
    rewrite !inserts_emit. simpl. by rewrite !app_nil_r.
  - destruct (migrate_rows_exact env table_name pg_columns rows 0 0
                (before_rows table_name (length rows) (after_banner table_name st)))
      as (i & s & st2 & -> & Hcfg & _ & _ & _ & Hins).
    assert (inserts (trace st2)
            = (inserts (trace st)
               ++ (insert_for (schema (pg_config st)) table_name
                     <$> sent_data env table_name pg_columns rows))%list) as Hins'.
    { rewrite Hins. unfold before_rows, after_banner.
      rewrite !inserts_emit. simpl. by rewrite !app_nil_r. }
    destruct (pg_commit_error env st2) as [e|].
    + eexists _, _. split; [done|].
      unfold close_cursors, after_table_error.
      rewrite !inserts_emit. cbn [trace set_pg]. rewrite !inserts_emit.
      simpl. by rewrite !app_nil_r.
    + eexists _, _. split; [done|].
      unfold close_cursors, after_commit.
      rewrite !inserts_emit. cbn [trace set_pg]. rewrite !inserts_emit.
      simpl. by rewrite !app_nil_r.
Qed.

Lemma migrate_table_sends_each_row_witness :
  exists c st',
    Fallible.migrate_table tag_env no_faults "tag_entity" connected_state = (inr c, st')
    /\ inserts (trace st')
       = (inserts (trace connected_state)
          ++ (insert_for (schema (pg_config connected_state)) "tag_entity"
                <$> sent_data tag_env "tag_entity" tag_columns [tag_row_1; tag_row_2]))%list.
Proof.
  apply (migrate_table_sends_each_row tag_env no_faults "tag_entity" tag_columns
           [tag_row_1; tag_row_2] connected_state).
  - split; reflexivity.
  - reflexivity.
  - reflexivity.
  - vm_compute. reflexivity.
  - vm_compute. reflexivity.
Defined.

(** X11. When the commit raises after the rows of a table were sent, and
    the rollbacks return, [migrate_table] prints the table-level error and
    returns (0, 0), not the counters of the loop; the open transaction is
    rolled back and the destination holds what it held before. *)
Theorem commit_failure_reports_nothing (env : Env) (faults : Faults) (table_name : string)
    (pg_columns : list string) (rows : list Row) (st : State) (e : Exn) :
  connected st ->
  pg_cursor_error faults (after_banner table_name st) = None ->
  (forall s, pg_rollback_error faults s = None) ->
  pg_columns_of env (after_banner table_name st) (schema (pg_config st)) table_name
  = inr pg_columns ->
  pg_columns <> [] ->
  sqlite_tables env !! table_name = Some rows ->
  rows <> [] ->
  (forall s, pg_commit_error env s = Some e) ->
  exists st',
    Fallible.migrate_table env faults table_name st = (inr (0, 0), st')
    /\ pg_pending st' = []
    /\ pg_committed st' = pg_committed st
    /\ In (Stdout (LTableError table_name e)) (trace st')
    /\ inserts (trace st')
       = (inserts (trace st)
          ++ (insert_for (schema (pg_config st)) table_name
                <$> sent_data env table_name pg_columns rows))%list.
Proof.
  intros Hconn Hcur Hroll Hcols Hne Hrows Hrows_ne Hfail.
  rewrite (migrate_table_refines env faults Hroll _ _ Hcur).
  rewrite (migrate_table_unfold _ _ _ Hconn), migrate_table_try_exact.
  change (schema (pg_config (after_banner table_name st))) with (schema (pg_config st)).
  rewrite Hcols, Hrows. rewrite !bool_decide_eq_false_2 by done.
  destruct (migrate_rows_exact env table_name pg_columns rows 0 0
              (before_rows table_name (length rows) (after_banner table_name st)))
    as (i & s & st2 & -> & _ & Hcom & _ & _ & Hins).
  rewrite Hfail. eexists. split; [done|].
  unfold close_cursors, after_table_error.
  change (pg_committed (before_rows _ _ _)) with (pg_committed st) in Hcom.
  split; [done|]. split; [exact Hcom|]. split.
  - cbn [trace emit set_pg]. rewrite !in_app_iff. simpl. tauto.
  - rewrite !inserts_emit. cbn [trace set_pg]. rewrite !inserts_emit, Hins.
    unfold before_rows, after_banner. rewrite !inserts_emit.
    simpl. by rewrite !app_nil_r.
Qed.

Lemma commit_failure_reports_nothing_witness :
  exists st',
    Fallible.migrate_table commit_rejected_env no_faults "tag_entity" connected_state
    = (inr (0, 0), st')
    /\ pg_pending st' = []
    /\ pg_committed st' = pg_committed connected_state
    /\ In (Stdout (LTableError "tag_entity"
                     "ForeignKeyViolation: insert or update violates foreign key constraint"))
          (trace st')
    /\ inserts (trace st')
       = (inserts (trace connected_state)
          ++ (insert_for (schema (pg_config connected_state)) "tag_entity"
                <$> sent_data commit_rejected_env "tag_entity" tag_columns [tag_row_1]))%list.
Proof.
  apply (commit_failure_reports_nothing commit_rejected_env no_faults "tag_entity"
           tag_columns [tag_row_1] connected_state).
  - split; reflexivity.
  - reflexivity.
  - reflexivity.
  - vm_compute. reflexivity.
  - discriminate.
  - vm_compute. reflexivity.
  - discriminate.
  - reflexivity.
Defined.

(** X19. A failed INSERT, in full: the loop body prints the error, the
    columns and the first three values and calls [rollback()].  If the
    rollback returns, the open transaction is emptied, one is added to the
    skip counter and the insert counter and the committed rows are as they
    were.  If the rollback raises, as it does on a lost connection, that
    exception leaves the loop body and no counter is returned. *)
Theorem failed_insert_logged_and_skipped (env : Env) (faults : Faults)
    (table_name : string) (pg_columns : list string) (row : Row)
    (inserted skipped : nat) (st : State) (e : Exn) :
  let data := row_data env table_name pg_columns row in
  let logged :=
    mkState (sqlite_path st) (pg_config st) (sqlite_conn st) (pg_conn st) (stats st)
      (pg_pending st) (pg_committed st)
      (trace st
       ++ [ PgExecute (PgInsert (schema (pg_config st)) table_name
                         (dict_keys data) (data.*2));
            Stdout (LInsertError e);
            Stdout (LColumns (dict_keys data));
            Stdout (LValues (take 3 (data.*2))) ]) in
  data <> [] ->
  pg_insert_outcome env st (schema (pg_config st)) table_name data = Failed e ->
  Fallible.migrate_row env faults table_name pg_columns (inserted, skipped) row st
  = match pg_rollback_error faults logged with
    | None =>
        (inr (inserted, S skipped),
         mkState (sqlite_path st) (pg_config st) (sqlite_conn st) (pg_conn st) (stats st)
           [] (pg_committed st) (trace logged ++ [PgRollback]))
    | Some e' =>
        (inl e',
         mkState (sqlite_path st) (pg_config st) (sqlite_conn st) (pg_conn st) (stats st)
           (pg_pending st) (pg_committed st) (trace logged ++ [PgRollback]))
    end.
Proof.
  intros data logged Hne Hfail.
  rewrite (fallible_migrate_row_failed env faults _ _ _ _ _ _ e Hne Hfail). fold data.
  destruct st as [path cfg sc pc sts pending committed tr].
  cbn [pg_config pg_committed].
  repeat first [rewrite emit_mkState | rewrite set_pg_mkState].
  unfold logged.
  cbn [sqlite_path pg_config sqlite_conn pg_conn stats pg_pending pg_committed trace].
  by rewrite <- !app_assoc.
Qed.

Lemma failed_insert_logged_and_skipped_witness :
  let data := row_data tag_env "tag_entity" tag_columns tag_row_2 in
  let st := connected_state in
  let e := "NotNullViolation: null value in column name" in
  let logged :=
    [ PgExecute (PgInsert "n8n" "tag_entity" (dict_keys data) (data.*2));
      Stdout (LInsertError e);
      Stdout (LColumns (dict_keys data));
      Stdout (LValues (take 3 (data.*2))) ] in
  Fallible.migrate_row tag_env no_faults "tag_entity" tag_columns (1, 0) tag_row_2 st
  = (inr (1, 1),
     mkState (sqlite_path st) (pg_config st) (sqlite_conn st) (pg_conn st) (stats st)
       [] (pg_committed st) (logged ++ [PgRollback]))
  /\ Fallible.migrate_row tag_env lost_faults "tag_entity" tag_columns (1, 0) tag_row_2 st
     = (inl already_closed,
        mkState (sqlite_path st) (pg_config st) (sqlite_conn st) (pg_conn st) (stats st)
          [] (pg_committed st) (logged ++ [PgRollback])).
Proof.
  split.
  - apply (failed_insert_logged_and_skipped tag_env no_faults "tag_entity" tag_columns
             tag_row_2 1 0 connected_state "NotNullViolation: null value in column name").
    + vm_compute. discriminate.
    + vm_compute. reflexivity.
  - apply (failed_insert_logged_and_skipped tag_env lost_faults "tag_entity" tag_columns
             tag_row_2 1 0 connected_state "NotNullViolation: null value in column name").
    + vm_compute. discriminate.
    + vm_compute. reflexivity.
Defined.

(** X20. On a connected migrator whose [cursor()] returns, when the
    catalog query raises, [migrate_table] prints the table-level error and
    calls [rollback()]; nothing is asked of the source, and both cursors
    are closed.  If the rollback returns, [migrate_table] returns (0, 0);
    if it raises, as it does when the query failed because the connection
    was lost, that exception leaves [migrate_table]. *)
Theorem catalog_query_failure (env : Env) (faults : Faults) (table_name : string)
    (st : State) (e : Exn) :
  connected st ->
  pg_cursor_error faults (after_banner table_name st) = None ->
  pg_columns_of env (after_banner table_name st) (schema (pg_config st)) table_name
  = inl e ->
  let reported :=
    mkState (sqlite_path st) (pg_config st) (sqlite_conn st) (pg_conn st)
      (stats st) (pg_pending st) (pg_committed st)
      (trace st
       ++ [ Stdout LRule; Stdout (LMigratingTable table_name); Stdout LRule;
            PgExecute (PgSelectColumns (schema (pg_config st)) table_name);
            Stdout (LTableError table_name e) ]) in
  let closing := [ PgRollback; SqliteCursorClose; PgCursorClose ] in
  Fallible.migrate_table env faults table_name st
  = match pg_rollback_error faults reported with
    | None =>
        (inr (0, 0),
         mkState (sqlite_path st) (pg_config st) (sqlite_conn st) (pg_conn st)
           (stats st) [] (pg_committed st) (trace reported ++ closing))
    | Some e' =>
        (inl e',
         mkState (sqlite_path st) (pg_config st) (sqlite_conn st) (pg_conn st)
           (stats st) (pg_pending st) (pg_committed st) (trace reported ++ closing))
    end.
Proof.
  intros Hconn Hcur Hcols reported closing.
  rewrite (fallible_migrate_table_unfold _ _ _ _ Hconn Hcur).
  unfold Fallible.migrate_table_try, bind, get_table_columns.
  change (schema (pg_config (after_banner table_name st))) with (schema (pg_config st)).
  rewrite Hcols.
  assert (table_error_reported table_name e
            (emit (PgExecute (PgSelectColumns (schema (pg_config st)) table_name))
               (after_banner table_name st)) = reported) as Hrep.
  { destruct st as [path cfg sc pc sts pending committed tr].
    unfold table_error_reported, after_banner, reported.
    cbn [pg_config]. rewrite !emit_mkState.
    cbn [sqlite_path pg_config sqlite_conn pg_conn stats pg_pending pg_committed trace].
    by rewrite <- !app_assoc. }
  unfold after_table_error, after_failed_rollback.
  fold (table_error_reported table_name e
          (emit (PgExecute (PgSelectColumns (schema (pg_config st)) table_name))
             (after_banner table_name st))).
  rewrite Hrep.
  destruct (pg_rollback_error faults reported) as [e'|];
    unfold close_cursors, reported, closing;
    repeat first [rewrite emit_mkState | rewrite set_pg_mkState];
    cbn [sqlite_path pg_config sqlite_conn pg_conn stats pg_pending pg_committed trace];
    by rewrite <- !app_assoc.
Qed.

Lemma catalog_query_failure_witness :
  let st := connected_state in
  let banner := [ Stdout LRule; Stdout (LMigratingTable "tag_entity"); Stdout LRule ] in
  let closing := [ PgRollback; SqliteCursorClose; PgCursorClose ] in
  Fallible.migrate_table catalog_fails_env no_faults "tag_entity" st
  = (inr (0, 0),
     mkState (sqlite_path st) (pg_config st) (sqlite_conn st) (pg_conn st)
       (stats st) [] (pg_committed st)
       (banner
        ++ [ PgExecute (PgSelectColumns "n8n" "tag_entity");
             Stdout (LTableError "tag_entity"
                       "InsufficientPrivilege: permission denied for schema") ]
        ++ closing))
  /\ Fallible.migrate_table lost_env lost_faults "tag_entity" st
     = (inl already_closed,
        mkState (sqlite_path st) (pg_config st) (sqlite_conn st) (pg_conn st)
          (stats st) [] (pg_committed st)
          (banner
           ++ [ PgExecute (PgSelectColumns "n8n" "tag_entity");
                Stdout (LTableError "tag_entity" connection_lost) ]
           ++ closing)).
Proof.
  split.
  - apply (catalog_query_failure catalog_fails_env no_faults "tag_entity" connected_state).
    + split; reflexivity.
    + reflexivity.
    + reflexivity.
  - apply (catalog_query_failure lost_env lost_faults "tag_entity" connected_state).
    + split; reflexivity.
    + reflexivity.
    + reflexivity.
Defined.

(** ** The report of a run *)

(** X12. As long as [cursor()] and [rollback()] return, [migrate_all] on
    a fresh, connected migrator leaves in [stats] one entry per table of
    [MIGRATION_ORDER], in that order.  Its output ends with the summary:
    the header, one line for each table with a non-zero counter, in
    migration order, and the total line, whose two numbers are the sums of
    the per-table counters. *)
Theorem migrate_all_report (env : Env) (faults : Faults) (st : State) :
  connected st ->
  stats st = [] ->
  pg_pending st = [] ->
  (forall s, pg_cursor_error faults s = None) ->
  (forall s, pg_rollback_error faults s = None) ->
  exists st' before,
    Fallible.migrate_all env faults st = (inr tt, st')
    /\ dict_keys (stats st') = MIGRATION_ORDER
    /\ trace st'
       = (before
          ++ [Stdout LRule; Stdout LSummary; Stdout LRule]
          ++ summary_lines (stats st')
          ++ [ Stdout (LTotal (total_inserted (stats st')) (total_skipped (stats st')));
               Stdout LRule ])%list.
Proof.
  intros Hconn Hstats Hpend Hcur Hroll.
  rewrite (migrate_all_refines env faults Hroll Hcur).
  destruct (migrate_all_exact env st Hconn Hstats Hpend)
    as (added & st1 & st' & Heq & _ & Hkeys & _ & _ & _ & _ & Htr).
  by exists st', (trace st1).
Qed.

Lemma migrate_all_report_witness :
  exists st' before,
    Fallible.migrate_all tag_env no_faults connected_state = (inr tt, st')
    /\ dict_keys (stats st') = MIGRATION_ORDER
    /\ trace st'
       = (before
          ++ [Stdout LRule; Stdout LSummary; Stdout LRule]
          ++ summary_lines (stats st')
          ++ [ Stdout (LTotal (total_inserted (stats st')) (total_skipped (stats st')));
               Stdout LRule ])%list.
Proof.
  apply (migrate_all_report tag_env no_faults connected_state);
    [split| | | |]; reflexivity.
Defined.
(** ** Names outside ASCII *)

(** U+212A KELVIN SIGN lowers to [k]: a name written with it is renamed
    like the name written with [k] or [K]. *)
Lemma map_column_name_kelvin_sign :
  lower ("api" ++ kelvin_sign ++ "ey") = "apikey"
  /\ map_column_name "user_api_keys" ("api" ++ kelvin_sign ++ "ey") = "apiKey"
  /\ map_column_name "workflow_statistics" ("wor" ++ kelvin_sign ++ "flowid")
     = "workflowId".
Proof. vm_compute. repeat split. Qed.

(** Two columns whose names differ by the Kelvin sign are renamed to one
    destination column, which holds the cell of the later one. *)
Lemma transform_row_kelvin_sign :
  transform_row example_env "user_api_keys" ["apiKey"]
    [ ("apikey", VStr "a"); ("api" ++ kelvin_sign ++ "ey", VStr "b") ]
  = inr [ ("apiKey", VStr "b") ].
Proof. vm_compute. reflexivity. Qed.

(** Every key of the rename tables is ASCII. *)
Lemma rename_keys_ascii :
  Forall (fun item => Forall (fun kd => is_ascii kd.1 = true) item.2)
    COLUMN_MAPPINGS_items.
Proof. apply (bool_decide_unpack _). vm_compute. exact I. Qed.

(** X21. A column name whose lowercase form has a character outside
    ASCII is renamed in no table: [map_column_name] returns it as it
    is. *)
Theorem non_ascii_name_not_renamed (table c : string) :
  is_ascii (lower c) = false ->
  map_column_name table c = c.
Proof.
  intros Hna. destruct (map_column_name_cases table c) as [H|[ml [Hin Hkd]]]; [done|].
  pose proof rename_keys_ascii as HF.
  rewrite Forall_forall in HF. specialize (HF _ Hin). cbn [fst snd] in HF.
  rewrite Forall_forall in HF. specialize (HF _ Hkd). cbn [fst snd] in HF.
  congruence.
Qed.

Lemma non_ascii_name_not_renamed_witness :
  map_column_name "workflow_statistics" ("workflow" ++ capital_i_dot ++ "d")
  = "workflow" ++ capital_i_dot ++ "d".
Proof.
  apply (non_ascii_name_not_renamed "workflow_statistics"
           ("workflow" ++ capital_i_dot ++ "d")).
  vm_compute. reflexivity.
Defined.

(** ** When the connection is lost *)

(** X22. When [self.pg_conn.cursor()] raises at the start of
    [migrate_table], the exception leaves [migrate_table] before its
    [try:]: the banner is all that happened, nothing is rolled back and
    the cursor of the source, obtained the line before, is not closed. *)
Theorem cursor_failure_leaves_migrate_table (env : Env) (faults : Faults)
    (table_name : string) (st : State) (e : Exn) :
  sqlite_conn st = Some ConnOpen ->
  pg_cursor_error faults (after_banner table_name st) = Some e ->
  Fallible.migrate_table env faults table_name st
  = (inl e,
     mkState (sqlite_path st) (pg_config st) (sqlite_conn st) (pg_conn st)
       (stats st) (pg_pending st) (pg_committed st)
       (trace st ++ [ Stdout LRule; Stdout (LMigratingTable table_name); Stdout LRule ])).
Proof.
  intros Hsqlite Hcur.
  rewrite (fallible_migrate_table_no_cursor env faults table_name st e Hsqlite Hcur).
  destruct st as [path cfg sc pc sts pending committed tr].
  unfold after_banner. rewrite !emit_mkState.
  cbn [sqlite_path pg_config sqlite_conn pg_conn stats pg_pending pg_committed trace].
  by rewrite <- !app_assoc.
Qed.

Lemma cursor_failure_leaves_migrate_table_witness :
  let st := after_lost_statement in
  Fallible.migrate_table lost_env lost_faults "tag_entity" st
  = (inl already_closed,
     mkState (sqlite_path st) (pg_config st) (sqlite_conn st) (pg_conn st)
       (stats st) (pg_pending st) (pg_committed st)
       (trace st ++ [ Stdout LRule; Stdout (LMigratingTable "tag_entity"); Stdout LRule ])).
Proof.
  apply (cursor_failure_leaves_migrate_table lost_env lost_faults "tag_entity"
           after_lost_statement already_closed); reflexivity.
Defined.

(** The finally clause of [main] adds closing events only. *)
Lemma close_trace st :
  exists st' closing,
    close st = (inr tt, st')
    /\ trace st' = (trace st ++ closing)%list
    /\ Forall (fun ev => ev = SqliteClose \/ ev = PgClose) closing.
Proof.
  unfold close.
  destruct (sqlite_conn st) as [c|] eqn:Hs.
  - change (pg_conn (set_sqlite_conn _ (emit _ st))) with (pg_conn st).
    destruct (pg_conn st) as [c'|] eqn:Hp.
    + eexists _, [SqliteClose; PgClose]. split; [reflexivity|]. split.
      * cbn [trace set_pg_conn emit set_sqlite_conn]. by rewrite <- app_assoc.
      * repeat (apply List.Forall_cons; [by auto|]). apply List.Forall_nil.
    + eexists _, [SqliteClose]. split; [reflexivity|]. split; [reflexivity|].
      repeat (apply List.Forall_cons; [by auto|]). apply List.Forall_nil.
  - destruct (pg_conn st) as [c'|] eqn:Hp.
    + eexists _, [PgClose]. split; [reflexivity|]. split; [reflexivity|].
      repeat (apply List.Forall_cons; [by auto|]). apply List.Forall_nil.
    + eexists _, []. split; [reflexivity|]. split; [by rewrite app_nil_r|].
      apply List.Forall_nil.
Qed.

(** X23. When both connections are established and [migrate_all] raises,
    as it does when a rollback of [migrate_table] raises, [main] returns
    1: after what [migrate_all] did it prints the failure and the
    traceback and closes the connections; [verify_migration] is not
    run. *)
Theorem migrate_all_failure_exit_code (env : Env) (faults : Faults) (sqlite : string)
    (cfg : PgConfig) (committed : list PgRow) (e : Exn) (st1 : State) :
  sqlite3_connect_error env sqlite = None ->
  psycopg2_connect_error env cfg = None ->
  Fallible.migrate_all env faults (after_connect sqlite cfg committed) = (inl e, st1) ->
  exists st' closing,
    Fallible.main env faults sqlite cfg committed = (inr 1%Z, st')
    /\ trace st'
       = (trace st1 ++ [ Stdout (LFailed e); Stderr (LTraceback e) ] ++ closing)%list
    /\ Forall (fun ev => ev = SqliteClose \/ ev = PgClose) closing.
Proof.
  intros Hs Hp Hall.
  unfold Fallible.main, try_finally, try_except, Fallible.main_try.
  unfold bind at 1. rewrite (connect_ok env sqlite cfg committed Hs Hp).
  unfold bind at 1. rewrite Hall.
  unfold bind, print, ret.
  set (st2 := emit (Stderr (LTraceback e)) (emit (Stdout (LFailed e)) st1)).
  destruct (close_trace st2) as (st' & closing & -> & Htr & Hall').
  exists st', closing. split; [reflexivity|]. split; [|exact Hall'].
  rewrite Htr. unfold st2. cbn [trace emit]. by rewrite <- !app_assoc.
Qed.

Lemma migrate_all_failure_exit_code_witness :
  exists st' closing,
    Fallible.main lost_env lost_faults "database.sqlite" example_cfg [] = (inr 1%Z, st')
    /\ trace st'
       = ([ Stdout (LConnectingSqlite "database.sqlite"); SqliteConnect "database.sqlite";
            Stdout (LConnectingPg "postgres" 5432 "chatsuite"); PgConnect example_cfg;
            Stdout LRule; Stdout LStarting; Stdout LRule; Stdout LTime;
            Stdout LRule; Stdout (LMigratingTable "migrations"); Stdout LRule;
            PgExecute (PgSelectColumns "n8n" "migrations");
            Stdout (LTableError "migrations" connection_lost);
            PgRollback; SqliteCursorClose; PgCursorClose ]
          ++ [ Stdout (LFailed already_closed); Stderr (LTraceback already_closed) ]
          ++ closing)%list
    /\ Forall (fun ev => ev = SqliteClose \/ ev = PgClose) closing.
Proof.
  apply (migrate_all_failure_exit_code lost_env lost_faults "database.sqlite" example_cfg []
           already_closed
           (mkState "database.sqlite" example_cfg (Some ConnOpen) (Some ConnOpen) [] [] []
              [ Stdout (LConnectingSqlite "database.sqlite"); SqliteConnect "database.sqlite";
                Stdout (LConnectingPg "postgres" 5432 "chatsuite"); PgConnect example_cfg;
                Stdout LRule; Stdout LStarting; Stdout LRule; Stdout LTime;
                Stdout LRule; Stdout (LMigratingTable "migrations"); Stdout LRule;
                PgExecute (PgSelectColumns "n8n" "migrations");
                Stdout (LTableError "migrations" connection_lost);
                PgRollback; SqliteCursorClose; PgCursorClose ])).
  - reflexivity.
  - reflexivity.
  - vm_compute. reflexivity.
Defined.
